(** * The upload and task-polling client of the deepfake detector (src/api.ts)

    A shallow embedding of [uploadVideo], [uploadAudio], [checkTaskStatus]
    and [pollTaskStatus], followed by the properties the specification
    states about them.

    The module talks to three things outside itself: the network ([fetch]
    and [response.json()]), the notification channel ([toast]) and the
    console.  Their answers are inputs of the model, their invocations are
    recorded as effects. *)

From Stdlib Require Import String Ascii List Bool NArith Lia DecimalString.
Import ListNotations.
Local Open Scope string_scope.
Local Open Scope list_scope.
#[local] Set Warnings "-register-all,-notation-for-abbreviation".

(** ** JavaScript values that reach this module *)

Module Js.

(** A decoded JSON value.  The module never does arithmetic on a number: it
    can only test it for truthiness and turn it into text, so a number is
    carried as these two observations ([is_zero], and [text], the result of
    the language's number-to-string conversion). *)
Inductive json : Type :=
| JNull
| JBool (b : bool)
| JNum (is_zero : bool) (text : string)
| JStr (s : string)
| JArr (items : list json)
| JObj (fields : list (string * json)).

(** The value of an expression: [None] is [undefined]. *)
Definition value := option json.

(** The error classes this module can meet.  All of them satisfy
    [instanceof Error]. *)
Inductive error_class : Type := PlainError | SyntaxError | TypeError.

(** What a [throw] or a rejected promise carries: an [Error] instance, or
    any other value. *)
Inductive thrown : Type :=
| ErrorObject (cls : error_class) (message : string)
| OtherValue (v : value).

(** [new Error(message)] *)
Definition new_Error (message : string) : thrown := ErrorObject PlainError message.

(** [e instanceof Error] *)
Definition instanceof_Error (e : thrown) : bool :=
  match e with
  | ErrorObject _ _ => true
  | OtherValue _ => false
  end.

(** [e.message] of an [Error] instance *)
Definition message_of (e : thrown) : option string :=
  match e with
  | ErrorObject _ m => Some m
  | OtherValue _ => None
  end.

(** Truthiness, as [||] tests it. *)
Definition truthy (v : value) : bool :=
  match v with
  | None => false
  | Some JNull => false
  | Some (JBool b) => b
  | Some (JNum is_zero _) => negb is_zero
  | Some (JStr s) => negb (s =? "")
  | Some (JArr _) => true
  | Some (JObj _) => true
  end.

Fixpoint join (sep : string) (parts : list string) : string :=
  match parts with
  | [] => ""
  | [p] => p
  | p :: rest => p ++ sep ++ join sep rest
  end.

(** Own property of a decoded object; when a key occurs twice in the body
    the decoder keeps the last occurrence. *)
Fixpoint lookup (key : string) (fields : list (string * json)) : value :=
  match fields with
  | [] => None
  | (k, v) :: rest =>
      match lookup key rest with
      | Some v' => Some v'
      | None => if k =? key then Some v else None
      end
  end.

(** All the parts, when each of them is there. *)
Fixpoint all_of (parts : list (option string)) : option (list string) :=
  match parts with
  | [] => Some []
  | None :: _ => None
  | Some p :: rest =>
      match all_of rest with
      | Some ps => Some (p :: ps)
      | None => None
      end
  end.

(** The string conversion applied by [new Error(v)] to its argument; [None]
    when the conversion throws.  A decoded object converts through the
    [toString] it inherits, unless the body gave it a key [toString] of its
    own: no decoded value can be called, and the conversion then fails.  An
    array joins the conversions of its items, [null] items counting as
    empty. *)
Fixpoint to_string (j : json) : option string :=
  match j with
  | JNull => Some "null"
  | JBool true => Some "true"
  | JBool false => Some "false"
  | JNum _ text => Some text
  | JStr s => Some s
  | JArr items =>
      match all_of (map (fun x => match x with
                                  | JNull => Some ""
                                  | _ => to_string x
                                  end) items) with
      | Some parts => Some (join "," parts)
      | None => None
      end
  | JObj fields =>
      match lookup "toString" fields with
      | Some _ => None
      | None => Some "[object Object]"
      end
  end.

(** [v || fallback], passed to [new Error]: the text the error will carry,
    [None] when the conversion to text throws. *)
Definition or_else (v : value) (fallback : string) : option string :=
  match v with
  | Some j => if truthy v then to_string j else Some fallback
  | None => Some fallback
  end.

(** [n.toString()] and [`${n}`] for a non-negative integer. *)
Definition decimal (n : N) : string := NilZero.string_of_uint (N.to_uint n).

(** Does [s] contain [sub]? *)
Fixpoint contains (sub s : string) : bool :=
  prefix sub s ||
  match s with
  | EmptyString => false
  | String _ s' => contains sub s'
  end.

End Js.
Import Js.

(** ** Computations with effects and exceptions *)

(** What the toast receives. *)
Record toast_args : Type := mkToast {
  title : string;
  description : string;
  variant : string
}.

Inductive http_method : Type := GET | POST.

Record File : Type := mkFile {
  file_name : string;
  file_content : string
}.

Inductive form_value : Type :=
| FormFile (f : File)
| FormText (s : string).

(** The argument of [fetch]. *)
Record request : Type := mkRequest {
  url : string;
  method : http_method;
  form : list (string * form_value);
  credentials : string;
  mode : string;
  headers : list (string * string)
}.

(** Everything the module does to the outside world. *)
Inductive effect : Type :=
| ConsoleError (label : string) (e : thrown)
| Toast (t : toast_args)
| Fetch (req : request)
| SetTimeout (ms : N)
| OnProgress (status : json)
| OnComplete (result : json)
| OnError (error : thrown)
| UnhandledRejection (e : thrown).

Inductive completion (A : Type) : Type :=
| Returned (a : A)
| Raised (e : thrown).
Arguments Returned {A} a.
Arguments Raised {A} e.

(** A computation yields the effects it performed, in order, and how it
    ended. *)
Definition Eff (A : Type) : Type := list effect * completion A.

Definition ret {A} (a : A) : Eff A := ([], Returned a).
Definition throw {A} (e : thrown) : Eff A := ([], Raised e).
Definition emit (x : effect) : Eff unit := ([x], Returned tt).

Definition bind {A B} (c : Eff A) (k : A -> Eff B) : Eff B :=
  match c with
  | (fx, Returned a) => let (fx', r) := k a in (fx ++ fx', r)
  | (fx, Raised e) => (fx, Raised e)
  end.

(** [try { c } catch (e) { handler e }] *)
Definition try_catch {A} (c : Eff A) (handler : thrown -> Eff A) : Eff A :=
  match c with
  | (fx, Returned a) => (fx, Returned a)
  | (fx, Raised e) => let (fx', r) := handler e in (fx ++ fx', r)
  end.

Declare Scope eff_scope.
Delimit Scope eff_scope with eff.
Notation "x <- c ;; k" := (bind c (fun x => k))
  (at level 100, c at next level, right associativity) : eff_scope.
Notation "c ;; k" := (bind c (fun _ => k))
  (at level 100, right associativity) : eff_scope.
Local Open Scope eff_scope.

Definition effects {A} (c : Eff A) : list effect := fst c.
Definition outcome {A} (c : Eff A) : completion A := snd c.

Definition is_toast (x : effect) : bool :=
  match x with
  | Toast _ => true
  | _ => false
  end.

Definition toasts {A} (c : Eff A) : list effect := filter is_toast (effects c).

(** ** The network *)

(** How [response.json()] ends: with the decoded value, or rejecting (a
    [SyntaxError] for an empty or malformed body). *)
Inductive body : Type :=
| Decodes (j : json)
| Undecodable (e : thrown).

Record response : Type := mkResponse {
  status : N;
  statusText : string;
  payload : body
}.

(** [response.ok]: the status is in the range 200-299. *)
Definition ok (r : response) : bool :=
  (200 <=? status r)%N && (status r <=? 299)%N.

(** How the promise returned by [fetch] settles. *)
Inductive fetch_result : Type :=
| Resolves (r : response)
| Rejects (e : thrown).

Definition await_fetch (a : fetch_result) : Eff response :=
  match a with
  | Resolves r => ret r
  | Rejects e => throw e
  end.

(** [await fetch(req)]: the request is issued, then the answer of the
    network is awaited. *)
Definition do_fetch (fetch : request -> fetch_result) (req : request) : Eff response :=
  emit (Fetch req) ;;
  await_fetch (fetch req).

(** [await response.json()] *)
Definition json_of (r : response) : Eff json :=
  match payload r with
  | Decodes j => ret j
  | Undecodable e => throw e
  end.

(** The text of the [TypeError] raised by reading a property of [null]. The
    wording is the engine's (this is V8's); nothing below depends on it. *)
Definition null_read_message (key : string) : string :=
  "Cannot read properties of null (reading '" ++ key ++ "')".

(** [j.key], for the keys this module reads ([error], [status],
    [task_id]): an object answers with its own property, a primitive or an
    array has none of them, and [null] has no properties to read. *)
Definition get_prop (j : json) (key : string) : Eff value :=
  match j with
  | JNull => throw (ErrorObject TypeError (null_read_message key))
  | JObj fields => ret (lookup key fields)
  | _ => ret None
  end.

(** The text of the [TypeError] raised when a value cannot be converted to
    a string (V8's wording again). *)
Definition uncoercible_message : string :=
  "Cannot convert object to primitive value".

(** [new Error(v || fallback)] *)
Definition new_Error_or (v : value) (fallback : string) : Eff thrown :=
  match or_else v fallback with
  | Some message => ret (new_Error message)
  | None => throw (ErrorObject TypeError uncoercible_message)
  end.

Definition API_BASE_URL : string := "http://192.168.1.39:5000".

Definition accept_json : list (string * string) := [("Accept", "application/json")].

(** [`Server error: ${response.status} ${response.statusText}`] *)
Definition server_error_text (r : response) : string :=
  "Server error: " ++ decimal (status r) ++ " " ++ statusText r.

(** ** uploadVideo *)

(** The frame count is taken to be a non-negative integer below 10^21, the
    range in which [frames.toString()] is the decimal numeral. *)
Definition uploadVideo_request (file : File) (frames : N) : request :=
  {| url := API_BASE_URL ++ "/api/upload/video";
     method := POST;
     form := [("file", FormFile file); ("frames", FormText (decimal frames))];
     credentials := "omit";
     mode := "cors";
     headers := accept_json |}.

(** [error instanceof Error ? error.message : fallback] *)
Definition describe (e : thrown) (fallback : string) : string :=
  match message_of e with
  | Some m => m
  | None => fallback
  end.

Definition upload_toast (e : thrown) (fallback : string) : toast_args :=
  {| title := "Upload Error";
     description := describe e fallback;
     variant := "destructive" |}.

Definition uploadVideo (fetch : request -> fetch_result)
    (file : File) (frames : N) : Eff json :=
  try_catch
    (response <- do_fetch fetch (uploadVideo_request file frames) ;;
     (if negb (ok response) then
        try_catch
          (errorData <- json_of response ;;
           err <- get_prop errorData "error" ;;
           e <- new_Error_or err (server_error_text response) ;;
           throw e)
          (fun jsonError => throw (new_Error (server_error_text response)))
      else ret tt) ;;
     json_of response)
    (fun error =>
       emit (ConsoleError "Error uploading video:" error) ;;
       emit (Toast (upload_toast error "Failed to upload video")) ;;
       throw error).

(** The default of the [frames] parameter. *)
Definition uploadVideo_default (fetch : request -> fetch_result) (file : File) : Eff json :=
  uploadVideo fetch file 20.

(** ** uploadAudio *)

Definition uploadAudio_request (file : File) : request :=
  {| url := API_BASE_URL ++ "/api/upload/audio";
     method := POST;
     form := [("file", FormFile file)];
     credentials := "omit";
     mode := "cors";
     headers := accept_json |}.

Definition uploadAudio (fetch : request -> fetch_result) (file : File) : Eff json :=
  try_catch
    (response <- do_fetch fetch (uploadAudio_request file) ;;
     (if negb (ok response) then
        errorData <- json_of response ;;
        err <- get_prop errorData "error" ;;
        e <- new_Error_or err "Failed to upload audio" ;;
        throw e
      else ret tt) ;;
     json_of response)
    (fun error =>
       emit (ConsoleError "Error uploading audio:" error) ;;
       emit (Toast (upload_toast error "Failed to upload audio")) ;;
       throw error).

(** ** checkTaskStatus *)

Definition checkTaskStatus_request (taskId : string) : request :=
  {| url := API_BASE_URL ++ "/api/task/" ++ taskId;
     method := GET;
     form := [];
     credentials := "omit";
     mode := "cors";
     headers := accept_json |}.

(** The part of [checkTaskStatus] that runs once its [fetch], issued with
    [checkTaskStatus_request], has settled with [answer]. *)
Definition checkTaskStatus_resume (answer : fetch_result) : Eff json :=
  try_catch
    (response <- await_fetch answer ;;
     (if negb (ok response) then
        errorData <- json_of response ;;
        err <- get_prop errorData "error" ;;
        e <- new_Error_or err "Failed to check task status" ;;
        throw e
      else ret tt) ;;
     json_of response)
    (fun error =>
       emit (ConsoleError "Error checking task status:" error) ;;
       throw error).

(** [checkTaskStatus], from its call to its end, on a network that answers
    [fetch]. *)
Definition checkTaskStatus (fetch : request -> fetch_result) (taskId : string) : Eff json :=
  try_catch
    (response <- do_fetch fetch (checkTaskStatus_request taskId) ;;
     (if negb (ok response) then
        errorData <- json_of response ;;
        err <- get_prop errorData "error" ;;
        e <- new_Error_or err "Failed to check task status" ;;
        throw e
      else ret tt) ;;
     json_of response)
    (fun error =>
       emit (ConsoleError "Error checking task status:" error) ;;
       throw error).

(** ** pollTaskStatus *)

(** [v === text] *)
Definition strict_eq (v : value) (text : string) : bool :=
  match v with
  | Some (JStr s) => s =? text
  | _ => false
  end.

(** *** The callbacks of the caller *)

(** How a callback behaves when it is invoked: it may invoke the function
    that [pollTaskStatus] returned, and it may throw instead of
    returning. *)
Record reaction : Type := mkReaction {
  cancels : bool;
  throws : option thrown
}.

(** A callback that does neither. *)
Definition returns : reaction := {| cancels := false; throws := None |}.

(** *** Computations of the polling closure *)

(** A computation that can read and set [isCancelled]: from the flag as it
    finds it, the flag as it leaves it, the effects performed and how it
    ended. *)
Definition Task (A : Type) : Type := bool -> bool * Eff A.

Definition lift {A} (c : Eff A) : Task A := fun flag => (flag, c).

Definition read_isCancelled : Task bool := fun flag => (flag, ret flag).

Definition and_then {A B} (m : Task A) (k : A -> Task B) : Task B :=
  fun flag =>
    match m flag with
    | (flag1, (fx, Returned a)) =>
        match k a flag1 with
        | (flag2, (fx', r)) => (flag2, (fx ++ fx', r))
        end
    | (flag1, (fx, Raised e)) => (flag1, (fx, Raised e))
    end.

(** [try { m } catch (e) { handler e }] *)
Definition attempt {A} (m : Task A) (handler : thrown -> Task A) : Task A :=
  fun flag =>
    match m flag with
    | (flag1, (fx, Returned a)) => (flag1, (fx, Returned a))
    | (flag1, (fx, Raised e)) =>
        match handler e flag1 with
        | (flag2, (fx', r)) => (flag2, (fx ++ fx', r))
        end
    end.

(** The call of a callback, recorded as [call], that behaves as [how]. *)
Definition invoke (call : effect) (how : reaction) : Task unit :=
  fun flag =>
    (if cancels how then true else flag,
     ([call], match throws how with
              | None => Returned tt
              | Some e => Raised e
              end)).

Declare Scope task_scope.
Delimit Scope task_scope with task.
Notation "x <- c ;; k" := (and_then c (fun x => k))
  (at level 100, c at next level, right associativity) : task_scope.
Notation "c ;; k" := (and_then c (fun _ => k))
  (at level 100, right associativity) : task_scope.

(** The [catch] clause of [checkStatus]; [how] is the behaviour of
    [onError] if it is called here. *)
Definition checkStatus_catch (error : thrown) (how : reaction) : Task unit :=
  (isCancelled <- read_isCancelled ;;
   if negb isCancelled then
     invoke (OnError (if instanceof_Error error then error
                      else new_Error "Failed to check task status")) how
   else lift (ret tt))%task.

(** The part of [checkStatus] that runs once the [fetch] issued by
    [checkTaskStatus] has settled with [answer].  [in_try] is the behaviour
    of the callback called inside the [try] (at most one is), [in_catch]
    that of [onError] called from the [catch]. *)
Definition checkStatus_resume (answer : fetch_result) (in_try in_catch : reaction)
    : Task unit :=
  (attempt
     (status <- lift (checkTaskStatus_resume answer) ;;
      s1 <- lift (get_prop status "status") ;;
      if strict_eq s1 "completed" then
        invoke (OnComplete status) in_try
      else
        s2 <- lift (get_prop status "status") ;;
        if strict_eq s2 "error" then
          err <- lift (get_prop status "error") ;;
          e <- lift (new_Error_or err "Task failed") ;;
          invoke (OnError e) in_try
        else
          invoke (OnProgress status) in_try ;;
          lift (emit (SetTimeout 1000)))
     (fun error => checkStatus_catch error in_catch))%task.

(** What the event loop still holds for a polling sequence: nothing, the
    request of a suspended [checkStatus], or a timer that will call
    [checkStatus]. *)
Inductive pending_work : Type :=
| Idle
| InFlight
| Scheduled (ms : N).

(** The closure created by one call of [pollTaskStatus], with the effects
    performed so far. *)
Record poller : Type := mkPoller {
  taskId : string;
  isCancelled : bool;
  pending : pending_work;
  trace : list effect
}.

(** [checkStatus], from its call to its [await]. *)
Definition checkStatus (p : poller) : poller :=
  if isCancelled p then
    {| taskId := taskId p; isCancelled := isCancelled p;
       pending := Idle; trace := trace p |}
  else
    {| taskId := taskId p; isCancelled := isCancelled p;
       pending := InFlight;
       trace := trace p ++ [Fetch (checkTaskStatus_request (taskId p))] |}.

Definition timer_of (fx : list effect) : pending_work :=
  fold_left (fun w x => match x with SetTimeout ms => Scheduled ms | _ => w end) fx Idle.

(** Nothing awaits the promise of [checkStatus]: what leaves its [catch]
    is an unhandled rejection. *)
Definition unhandled (r : completion unit) : list effect :=
  match r with
  | Returned _ => []
  | Raised e => [UnhandledRejection e]
  end.

(** [checkStatus], from its [await] to its end, with callbacks that behave
    as [in_try] and [in_catch]. *)
Definition checkStatus_resumed (p : poller) (answer : fetch_result)
    (in_try in_catch : reaction) : poller :=
  let out := checkStatus_resume answer in_try in_catch (isCancelled p) in
  {| taskId := taskId p; isCancelled := fst out;
     pending := timer_of (effects (snd out));
     trace := trace p ++ effects (snd out) ++ unhandled (outcome (snd out)) |}.

(** What such a turn adds to the trace, from the flag as it stands. *)
Definition turn_effects (answer : fetch_result) (in_try in_catch : reaction)
    (flag : bool) : list effect :=
  let out := checkStatus_resume answer in_try in_catch flag in
  effects (snd out) ++ unhandled (outcome (snd out)).

(** The same with callbacks that return and leave the flag alone. *)
Definition checkStatus_settled (p : poller) (answer : fetch_result) : poller :=
  checkStatus_resumed p answer returns returns.

(** The state in which [pollTaskStatus] returns: the flag is clear and
    [checkStatus] has been called once.  The function it returns is
    [cancel]. *)
Definition pollTaskStatus (taskId : string) : poller :=
  checkStatus {| taskId := taskId; isCancelled := false; pending := Idle; trace := [] |}.

Definition cancel (p : poller) : poller :=
  {| taskId := taskId p; isCancelled := true;
     pending := pending p; trace := trace p |}.

(** What can happen to a polling sequence next: the caller invokes the
    returned function, the outstanding request settles (and the callbacks
    called in that turn behave as [in_try] and [in_catch]), or the timer
    fires. *)
Inductive action : Type :=
| Cancel
| SettleWith (answer : fetch_result) (in_try in_catch : reaction)
| TimerFires.

(** The request settles and the callbacks return without cancelling. *)
Notation Settle answer := (SettleWith answer returns returns).

(** One turn of the event loop; [None] when the action cannot happen in
    this state.  [SettleWith] runs the whole chain of continuations that
    the settling of [fetch] wakes, up to the end of [checkStatus]: outside
    the callbacks the flag is read only in the [catch] that ends this
    chain, so an invocation of the returned function from elsewhere inside
    the chain is a [Cancel] before the [SettleWith]. *)
Definition step (p : poller) (a : action) : option poller :=
  match a, pending p with
  | Cancel, _ => Some (cancel p)
  | SettleWith answer in_try in_catch, InFlight =>
      Some (checkStatus_resumed p answer in_try in_catch)
  | TimerFires, Scheduled _ => Some (checkStatus p)
  | _, _ => None
  end.

Fixpoint run (p : poller) (acts : list action) : option poller :=
  match acts with
  | [] => Some p
  | a :: rest =>
      match step p a with
      | Some p' => run p' rest
      | None => None
      end
  end.

(** Projections of a trace. *)
Definition is_callback (x : effect) : bool :=
  match x with
  | OnProgress _ | OnComplete _ | OnError _ => true
  | _ => false
  end.

Definition is_fetch (x : effect) : bool :=
  match x with
  | Fetch _ => true
  | _ => false
  end.

Definition callbacks (fx : list effect) : list effect := filter is_callback fx.
Definition fetches (fx : list effect) : list effect := filter is_fetch fx.

(** A status query answered with the record [j]. *)
Definition answers_with (answer : fetch_result) (j : json) : Prop :=
  exists r, answer = Resolves r /\ ok r = true /\ payload r = Decodes j.

(** More projections of a trace. *)
Definition is_progress (x : effect) : bool :=
  match x with
  | OnProgress _ => true
  | _ => false
  end.

Definition is_terminal (x : effect) : bool :=
  match x with
  | OnComplete _ | OnError _ => true
  | _ => false
  end.

Definition is_complete (x : effect) : bool :=
  match x with
  | OnComplete _ => true
  | _ => false
  end.

(** The callback called inside the [try] in this turn, if any, returns. *)
Definition try_callback_returns (a : action) : Prop :=
  match a with
  | SettleWith _ in_try _ => throws in_try = None
  | _ => True
  end.

Definition count (f : effect -> bool) (fx : list effect) : nat :=
  length (filter f fx).

(** A record that keeps the sequence polling: its [status] reads as neither
    'completed' nor 'error' (it may be any other text, another kind of
    value, or missing). *)
Definition non_terminal (j : json) : Prop :=
  exists v, get_prop j "status" = ret v /\
            strict_eq v "completed" = false /\
            strict_eq v "error" = false.

(** A turn in which a query is answered: the answer and the behaviour of
    the callbacks. *)
Definition turn : Type := fetch_result * reaction * reaction.

Definition answer_of (t : turn) : fetch_result := fst (fst t).
Definition in_try_of (t : turn) : reaction := snd (fst t).

(** The turns of the event loop while the sequence keeps polling: each
    query is answered, then the timer it set fires. *)
Fixpoint polls (turns : list turn) : list action :=
  match turns with
  | [] => []
  | (a, in_try, in_catch) :: rest =>
      SettleWith a in_try in_catch :: TimerFires :: polls rest
  end.

(** The progress callback returns and leaves the flag alone. *)
Definition lets_polling_go_on (how : reaction) : Prop :=
  throws how = None /\ cancels how = false.

(** What a polling sequence for [tid] may do to the outside world. *)
Definition expected_of (tid : string) (x : effect) : Prop :=
  match x with
  | Fetch req => req = checkTaskStatus_request tid
  | SetTimeout ms => ms = 1000%N
  | Toast _ => False
  | OnError e => instanceof_Error e = true
  | _ => True
  end.

(** What holds of a polling sequence for [tid] at every turn of the event
    loop: no terminal callback (completion or error) has been called while
    something is pending, at most two have been once nothing is (the second
    one from the [catch], when the first threw), and the requests issued
    are one ahead of the progress callbacks exactly while a request is in
    flight. *)
Definition poll_invariant (tid : string) (p : poller) : Prop :=
  taskId p = tid /\
  Forall (expected_of tid) (trace p) /\
  match pending p with
  | InFlight =>
      count is_terminal (trace p) = 0 /\
      count is_fetch (trace p) = S (count is_progress (trace p))
  | Scheduled ms =>
      ms = 1000%N /\
      count is_terminal (trace p) = 0 /\
      count is_fetch (trace p) = count is_progress (trace p)
  | Idle =>
      count is_terminal (trace p) <= 2 /\
      count is_complete (trace p) <= 1 /\
      count is_progress (trace p) <= count is_fetch (trace p) /\
      count is_fetch (trace p) <= S (count is_progress (trace p))
  end.

(** ** Sample inputs *)

Module Sample.

Definition clip : File := {| file_name := "clip.mp4"; file_content := "" |}.

Definition responds (code : N) (reason : string) (b : body) : fetch_result :=
  Resolves {| status := code; statusText := reason; payload := b |}.

Definition record (state : string) : json :=
  JObj [("id", JStr "task-1"); ("status", JStr state);
        ("type", JStr "video"); ("filename", JStr "clip.mp4")].

Definition failed_record (msg : string) : json :=
  JObj [("id", JStr "task-1"); ("status", JStr "error");
        ("type", JStr "video"); ("filename", JStr "clip.mp4");
        ("error", JStr msg)].

Definition accepted : json :=
  JObj [("task_id", JStr "task-1"); ("status", JStr "queued")].

Definition empty_body : body :=
  Undecodable (ErrorObject SyntaxError "Unexpected end of JSON input").

(** A status record without a [status] field. *)
Definition bare : json := JObj [("id", JStr "task-1")].

Definition offline : thrown := ErrorObject TypeError "Failed to fetch".

End Sample.

(** ** The specification's sentences that the code does not satisfy as they
       are written *)

(** "For any non-2xx response with a JSON body containing [error: X], the
    resulting failure's message equals [X]", for both uploads. *)
Definition rejection_message_is_error_field : Prop :=
  forall (fetch : request -> fetch_result) (file : File) (frames : N)
         (r : response) (j : json) (X : string),
    ok r = false ->
    payload r = Decodes j ->
    get_prop j "error" = ret (Some (JStr X)) ->
    (fetch (uploadVideo_request file frames) = Resolves r ->
     exists e, outcome (uploadVideo fetch file frames) = Raised e /\
               message_of e = Some X) /\
    (fetch (uploadAudio_request file) = Resolves r ->
     exists e, outcome (uploadAudio fetch file) = Raised e /\
               message_of e = Some X).

(** "Given a status response of [error] with message [M], the error
    callback fires exactly once with message [M]", whenever the record has
    the field. *)
Definition task_error_message_is_error_field : Prop :=
  forall (p : poller) (answer : fetch_result) (j : json) (M : string),
    pending p = InFlight ->
    answers_with answer j ->
    get_prop j "status" = ret (Some (JStr "error")) ->
    get_prop j "error" = ret (Some (JStr M)) ->
    exists p' e,
      step p (Settle answer) = Some p' /\
      trace p' = trace p ++ [OnError e] /\
      message_of e = Some M.

(** * Properties *)

(** Case analysis on the conversion to text inside [new Error(v || fallback)]. *)
Ltac split_conversion :=
  unfold new_Error_or;
  repeat match goal with
         | |- context [or_else ?v ?f] => destruct (or_else v f)
         end.

(** Case analysis on a response, as the three functions that await one go
    through it: [ok], the decoding of the body, the kind of value decoded,
    the conversion of its [error] field. *)
Ltac split_response r :=
  destruct (ok r) eqn:?; cbn [negb ret bind try_catch]; unfold json_of;
  destruct (payload r) as [[| | | | |?fields]|?] eqn:?;
  cbn [get_prop ret throw bind try_catch app];
  split_conversion;
  cbn [emit ret throw bind try_catch app].

(** ** Text *)

Lemma prefix_append (sub rest : string) : prefix sub (sub ++ rest) = true.
Proof.
  induction sub as [|a sub IH]; simpl.
  - destruct rest; reflexivity.
  - destruct (ascii_dec a a) as [_|ne]; [exact IH | now elim ne].
Qed.

Lemma contains_here (sub rest : string) : contains sub (sub ++ rest) = true.
Proof.
  generalize (prefix_append sub rest).
  destruct (sub ++ rest)%string; cbn [contains]; intros ->; reflexivity.
Qed.

Lemma contains_later (sub before s : string) :
  contains sub s = true -> contains sub (before ++ s) = true.
Proof.
  intros H. induction before as [|a before IH]; simpl.
  - exact H.
  - rewrite IH. apply orb_true_r.
Qed.

Lemma contains_end (sub : string) : contains sub sub = true.
Proof.
  generalize (contains_here sub ""). 
  replace (sub ++ "")%string with sub; [trivial|].
  induction sub as [|a sub IH]; simpl; [reflexivity | now rewrite <- IH].
Qed.

(** The synthesized message shows the status code and the reason phrase. *)
Lemma server_error_text_shows_status (r : response) :
  contains (decimal (status r)) (server_error_text r) = true /\
  contains (statusText r) (server_error_text r) = true.
Proof.
  unfold server_error_text. split.
  - apply contains_later, contains_here.
  - apply contains_later. apply contains_later. apply contains_later, contains_end.
Qed.

(** ** Uploads *)

Section Uploads.

Variable fetch : request -> fetch_result.
Variable file : File.

(** Once the response is not [ok], the inner [try] of [uploadVideo] ends in
    a [throw] on every path, and its [catch] replaces whatever was thrown:
    the caller always sees the synthesized message. *)
Lemma uploadVideo_rejected (frames : N) (r : response) :
  fetch (uploadVideo_request file frames) = Resolves r ->
  ok r = false ->
  uploadVideo fetch file frames =
    ([Fetch (uploadVideo_request file frames);
      ConsoleError "Error uploading video:" (new_Error (server_error_text r));
      Toast (upload_toast (new_Error (server_error_text r)) "Failed to upload video")],
     Raised (new_Error (server_error_text r))).
Proof.
  intros Hf Hok. unfold uploadVideo. unfold do_fetch. rewrite Hf. cbn [await_fetch emit ret bind app].
  rewrite Hok. cbn [negb]. unfold json_of.
  destruct (payload r) as [j|e]; [destruct j|]; try reflexivity.
  cbn [get_prop ret bind]. split_conversion; reflexivity.
Qed.

(** [uploadAudio] has no inner [try]: a body that does not decode sends the
    decoder's own failure to the caller. *)
Lemma uploadAudio_undecodable (r : response) (e : thrown) :
  fetch (uploadAudio_request file) = Resolves r ->
  ok r = false ->
  payload r = Undecodable e ->
  uploadAudio fetch file =
    ([Fetch (uploadAudio_request file);
      ConsoleError "Error uploading audio:" e;
      Toast (upload_toast e "Failed to upload audio")],
     Raised e).
Proof.
  intros Hf Hok Hb. unfold uploadAudio. unfold do_fetch. rewrite Hf. cbn [await_fetch emit ret bind app].
  rewrite Hok. cbn [negb]. unfold json_of. rewrite Hb. reflexivity.
Qed.

Lemma uploadAudio_rejected (r : response) (j : json) (v : value) (m : string) :
  fetch (uploadAudio_request file) = Resolves r ->
  ok r = false ->
  payload r = Decodes j ->
  get_prop j "error" = ret v ->
  or_else v "Failed to upload audio" = Some m ->
  uploadAudio fetch file =
    ([Fetch (uploadAudio_request file);
      ConsoleError "Error uploading audio:" (new_Error m);
      Toast (upload_toast (new_Error m) "Failed to upload audio")],
     Raised (new_Error m)).
Proof.
  intros Hf Hok Hb Hv Hm. unfold uploadAudio. unfold do_fetch. rewrite Hf.
  cbn [await_fetch emit ret bind app].
  rewrite Hok. cbn [negb]. unfold json_of. rewrite Hb. cbn [ret bind].
  rewrite Hv. cbn [ret bind]. unfold new_Error_or. rewrite Hm. reflexivity.
Qed.

End Uploads.

Lemma or_else_text (X fallback : string) :
  X <> "" -> or_else (Some (JStr X)) fallback = Some X.
Proof.
  intros H. unfold or_else, truthy.
  destruct (X =? "")%string eqn:E; [|reflexivity].
  apply String.eqb_eq in E. contradiction.
Qed.

(** C2, as the specification words it, fails: an audio upload rejected with
    the body [{"error": ""}] raises "Failed to upload audio", not the empty
    text of the field. *)
Lemma rejection_with_empty_error_field :
  ~ rejection_message_is_error_field.
Proof.
  intros claim.
  destruct (claim (fun _ => Sample.responds 400 "Bad Request"
                              (Decodes (JObj [("error", JStr "")])))
                  Sample.clip 20%N
                  {| status := 400; statusText := "Bad Request";
                     payload := Decodes (JObj [("error", JStr "")]) |}
                  (JObj [("error", JStr "")]) ""
                  eq_refl eq_refl eq_refl) as [_ audio].
  destruct (audio eq_refl) as [e [raised msg]].
  cbv in raised. injection raised as <-. discriminate msg.
Qed.

(** C2, amended: an audio upload answered with a non-2xx response whose
    body is JSON with a non-empty text [X] in its [error] field raises a
    failure whose message is exactly [X]. *)
Theorem uploadAudio_rejection_message
    (fetch : request -> fetch_result) (file : File)
    (r : response) (j : json) (X : string) :
  fetch (uploadAudio_request file) = Resolves r ->
  ok r = false ->
  payload r = Decodes j ->
  get_prop j "error" = ret (Some (JStr X)) ->
  X <> "" ->
  exists e, outcome (uploadAudio fetch file) = Raised e /\
            message_of e = Some X.
Proof.
  intros Hf Hok Hb Hx Hne.
  rewrite (uploadAudio_rejected fetch file r j _ X Hf Hok Hb Hx
             (or_else_text X _ Hne)).
  eexists. split; reflexivity.
Qed.

Lemma uploadAudio_rejection_message_witness :
  exists e,
    outcome (uploadAudio
               (fun _ => Sample.responds 400 "Bad Request"
                           (Decodes (JObj [("error", JStr "No file part")])))
               Sample.clip) = Raised e /\
    message_of e = Some "No file part".
Proof.
  apply (uploadAudio_rejection_message _ Sample.clip
           {| status := 400; statusText := "Bad Request";
              payload := Decodes (JObj [("error", JStr "No file part")]) |}
           (JObj [("error", JStr "No file part")]) "No file part").
  - reflexivity.
  - reflexivity.
  - reflexivity.
  - reflexivity.
  - discriminate.
Defined.

(** The video path on the same kind of body: the [Error] built from the
    field is thrown inside the inner [try] and caught by its own [catch], so
    the field never reaches the caller. *)
Example uploadVideo_drops_error_field :
  outcome (uploadVideo
             (fun _ => Sample.responds 400 "Bad Request"
                         (Decodes (JObj [("error", JStr "No file part")])))
             Sample.clip 20) = Raised (new_Error "Server error: 400 Bad Request").
Proof. reflexivity. Qed.

(** The half of C3 that the code keeps: on the video path a non-2xx
    response whose body does not decode raises the synthesized message,
    which shows the status code and the reason phrase. *)
Lemma uploadVideo_undecodable_message
    (fetch : request -> fetch_result) (file : File) (frames : N)
    (r : response) (e : thrown) :
  fetch (uploadVideo_request file frames) = Resolves r ->
  ok r = false ->
  payload r = Undecodable e ->
  exists m,
    outcome (uploadVideo fetch file frames) = Raised (new_Error m) /\
    contains (decimal (status r)) m = true /\
    contains (statusText r) m = true.
Proof.
  intros Hf Hok _. rewrite (uploadVideo_rejected fetch file frames r Hf Hok).
  exists (server_error_text r). split; [reflexivity|].
  apply server_error_text_shows_status.
Qed.

(** C3, on the audio path: a 500 response with an empty body makes
    [uploadAudio] raise the decoder's [SyntaxError] itself; its message
    shows neither the status code nor the reason phrase. *)
Theorem uploadAudio_empty_body_raises_decode_failure :
  let answer := Sample.responds 500 "Internal Server Error" Sample.empty_body in
  outcome (uploadAudio (fun _ => answer) Sample.clip)
    = Raised (ErrorObject SyntaxError "Unexpected end of JSON input") /\
  contains "500" "Unexpected end of JSON input" = false /\
  contains "Internal Server Error" "Unexpected end of JSON input" = false /\
  outcome (uploadVideo (fun _ => answer) Sample.clip 20)
    = Raised (new_Error "Server error: 500 Internal Server Error").
Proof. repeat split; reflexivity. Qed.

(** C8: a video upload answered with a 2xx response whose body decodes to a
    value with fields [task_id] and [status] returns that value, both fields
    as they were decoded, and shows no toast. *)
Theorem uploadVideo_returns_decoded_body
    (fetch : request -> fetch_result) (file : File) (frames : N)
    (r : response) (j : json) (task_id state : json) :
  fetch (uploadVideo_request file frames) = Resolves r ->
  ok r = true ->
  payload r = Decodes j ->
  get_prop j "task_id" = ret (Some task_id) ->
  get_prop j "status" = ret (Some state) ->
  exists j',
    outcome (uploadVideo fetch file frames) = Returned j' /\
    j' = j /\
    get_prop j' "task_id" = ret (Some task_id) /\
    get_prop j' "status" = ret (Some state) /\
    toasts (uploadVideo fetch file frames) = [].
Proof.
  intros Hf Hok Hb Hid Hst. exists j.
  unfold uploadVideo. unfold do_fetch. rewrite Hf. cbn [await_fetch emit ret bind app].
  rewrite Hok. cbn [negb ret bind]. unfold json_of. rewrite Hb.
  repeat split; assumption || reflexivity.
Qed.

Lemma uploadVideo_returns_decoded_body_witness :
  exists j',
    outcome (uploadVideo (fun _ => Sample.responds 200 "OK" (Decodes Sample.accepted))
                         Sample.clip 20) = Returned j' /\
    j' = Sample.accepted /\
    get_prop j' "task_id" = ret (Some (JStr "task-1")) /\
    get_prop j' "status" = ret (Some (JStr "queued")) /\
    toasts (uploadVideo (fun _ => Sample.responds 200 "OK" (Decodes Sample.accepted))
                        Sample.clip 20) = [].
Proof.
  apply (uploadVideo_returns_decoded_body _ Sample.clip 20
           {| status := 200; statusText := "OK"; payload := Decodes Sample.accepted |});
    reflexivity.
Defined.

(** Every failure of an upload, whatever raised it, goes through the outer
    [catch]: it is logged, shown as a toast and thrown again. *)
Lemma uploadVideo_failure_is_toasted
    (fetch : request -> fetch_result) (file : File) (frames : N) (e : thrown) :
  outcome (uploadVideo fetch file frames) = Raised e ->
  effects (uploadVideo fetch file frames) =
    [Fetch (uploadVideo_request file frames);
     ConsoleError "Error uploading video:" e;
     Toast (upload_toast e "Failed to upload video")].
Proof.
  unfold uploadVideo, do_fetch.
  destruct (fetch (uploadVideo_request file frames)) as [r|e0];
    cbn [await_fetch emit ret throw bind try_catch app].
  - split_response r; cbn [outcome effects fst snd];
      intros H; inversion H; reflexivity.
  - cbn [outcome effects fst snd]. intros H; inversion H; reflexivity.
Qed.

Lemma uploadAudio_failure_is_toasted
    (fetch : request -> fetch_result) (file : File) (e : thrown) :
  outcome (uploadAudio fetch file) = Raised e ->
  effects (uploadAudio fetch file) =
    [Fetch (uploadAudio_request file);
     ConsoleError "Error uploading audio:" e;
     Toast (upload_toast e "Failed to upload audio")].
Proof.
  unfold uploadAudio, do_fetch.
  destruct (fetch (uploadAudio_request file)) as [r|e0];
    cbn [await_fetch emit ret throw bind try_catch app].
  - split_response r; cbn [outcome effects fst snd];
      intros H; inversion H; reflexivity.
  - cbn [outcome effects fst snd]. intros H; inversion H; reflexivity.
Qed.

(** C9: an upload call has exactly two ways to end.  Either its request was
    answered with a 2xx response whose body decodes, and the decoded value
    is returned with no effect but the request; or, in every other case, the failure is
    logged, shown in a toast whose description is taken from it, and raised
    to the caller, and if the failure is the rejection of [fetch] (the
    request could not be completed), the value raised is that rejection
    itself.  This holds for video and for audio. *)
Theorem upload_failure_toasted_and_raised
    (fetch : request -> fetch_result) (file : File) (frames : N) :
  ((exists r j,
      fetch (uploadVideo_request file frames) = Resolves r /\
      ok r = true /\ payload r = Decodes j /\
      uploadVideo fetch file frames =
        ([Fetch (uploadVideo_request file frames)], Returned j))
   \/
   (exists e,
      uploadVideo fetch file frames =
        ([Fetch (uploadVideo_request file frames);
          ConsoleError "Error uploading video:" e;
          Toast {| title := "Upload Error";
                   description := describe e "Failed to upload video";
                   variant := "destructive" |}],
         Raised e) /\
      forall e0, fetch (uploadVideo_request file frames) = Rejects e0 -> e = e0))
  /\
  ((exists r j,
      fetch (uploadAudio_request file) = Resolves r /\
      ok r = true /\ payload r = Decodes j /\
      uploadAudio fetch file =
        ([Fetch (uploadAudio_request file)], Returned j))
   \/
   (exists e,
      uploadAudio fetch file =
        ([Fetch (uploadAudio_request file);
          ConsoleError "Error uploading audio:" e;
          Toast {| title := "Upload Error";
                   description := describe e "Failed to upload audio";
                   variant := "destructive" |}],
         Raised e) /\
      forall e0, fetch (uploadAudio_request file) = Rejects e0 -> e = e0)).
Proof.
  split.
  - unfold uploadVideo, do_fetch.
    destruct (fetch (uploadVideo_request file frames)) as [r|e] eqn:Hf;
      cbn [await_fetch emit ret throw bind try_catch app].
    + split_response r;
        first [ left; do 2 eexists; split; [reflexivity|];
                split; [eassumption|]; split; [eassumption | reflexivity]
              | right; eexists; split; [reflexivity | discriminate] ].
    + right. exists e. split; [reflexivity | congruence].
  - unfold uploadAudio, do_fetch.
    destruct (fetch (uploadAudio_request file)) as [r|e] eqn:Hf;
      cbn [await_fetch emit ret throw bind try_catch app].
    + split_response r;
        first [ left; do 2 eexists; split; [reflexivity|];
                split; [eassumption|]; split; [eassumption | reflexivity]
              | right; eexists; split; [reflexivity | discriminate] ].
    + right. exists e. split; [reflexivity | congruence].
Qed.

(** The case of C9 in which the network is down. *)
Example upload_while_offline :
  uploadVideo (fun _ => Rejects Sample.offline) Sample.clip 20 =
    ([Fetch (uploadVideo_request Sample.clip 20);
      ConsoleError "Error uploading video:" Sample.offline;
      Toast {| title := "Upload Error";
               description := "Failed to fetch";
               variant := "destructive" |}],
     Raised Sample.offline) /\
  uploadAudio (fun _ => Rejects Sample.offline) Sample.clip =
    ([Fetch (uploadAudio_request Sample.clip);
      ConsoleError "Error uploading audio:" Sample.offline;
      Toast {| title := "Upload Error";
               description := "Failed to fetch";
               variant := "destructive" |}],
     Raised Sample.offline).
Proof. split; reflexivity. Qed.

(** ** One status query *)

Section Resume.

Variable answer : fetch_result.
Variable j : json.
Hypothesis served : answers_with answer j.
Variables in_try in_catch : reaction.
Variable flag : bool.

Lemma checkTaskStatus_resume_served :
  checkTaskStatus_resume answer = ret j.
Proof.
  destruct served as [r [-> [Hok Hb]]].
  unfold checkTaskStatus_resume. cbn [await_fetch ret bind].
  rewrite Hok. cbn [negb ret bind]. unfold json_of. rewrite Hb. reflexivity.
Qed.

Lemma resume_completed :
  get_prop j "status" = ret (Some (JStr "completed")) ->
  checkStatus_resume answer in_try in_catch flag =
    attempt (invoke (OnComplete j) in_try)
            (fun e => checkStatus_catch e in_catch) flag.
Proof.
  intros Hs. unfold checkStatus_resume, attempt at 1.
  cbn [and_then lift]. rewrite checkTaskStatus_resume_served.
  cbn [ret app]. rewrite Hs. reflexivity.
Qed.

Lemma resume_failed (v : value) (m : string) :
  get_prop j "status" = ret (Some (JStr "error")) ->
  get_prop j "error" = ret v ->
  or_else v "Task failed" = Some m ->
  checkStatus_resume answer in_try in_catch flag =
    attempt (invoke (OnError (new_Error m)) in_try)
            (fun e => checkStatus_catch e in_catch) flag.
Proof.
  intros Hs He Hm. unfold checkStatus_resume, attempt at 1.
  cbn [and_then lift]. rewrite checkTaskStatus_resume_served.
  cbn [ret app]. rewrite Hs, He.
  cbn [and_then lift ret app strict_eq String.eqb Ascii.eqb Bool.eqb].
  unfold new_Error_or. rewrite Hm. reflexivity.
Qed.

Lemma resume_progress (v : value) :
  get_prop j "status" = ret v ->
  strict_eq v "completed" = false ->
  strict_eq v "error" = false ->
  checkStatus_resume answer in_try in_catch flag =
    attempt (and_then (invoke (OnProgress j) in_try)
                      (fun _ => lift (emit (SetTimeout 1000))))
            (fun e => checkStatus_catch e in_catch) flag.
Proof.
  intros Hs Hc He. unfold checkStatus_resume, attempt at 1.
  cbn [and_then lift]. rewrite checkTaskStatus_resume_served.
  cbn [ret app]. rewrite Hs. cbn [and_then lift ret app]. rewrite Hc.
  cbn [and_then lift ret app]. rewrite He. unfold attempt.
  destruct (and_then (invoke (OnProgress j) in_try)
                     (fun _ => lift (emit (SetTimeout 1000))) flag)
    as [flag1 [fx r]].
  reflexivity.
Qed.

End Resume.

(** A status query either yields the record that answered it, or logs a
    failure and raises it. *)
Lemma query_outcome (answer : fetch_result) :
  (exists j, answers_with answer j /\ checkTaskStatus_resume answer = ret j) \/
  (exists e, checkTaskStatus_resume answer =
               ([ConsoleError "Error checking task status:" e], Raised e)).
Proof.
  destruct answer as [r|e]; [|right; exists e; reflexivity].
  unfold checkTaskStatus_resume. cbn [await_fetch ret throw bind try_catch app].
  split_response r;
    first [ right; eexists; reflexivity
          | left; eexists; split; [|reflexivity];
            exists r; split; [reflexivity|]; split; assumption ].
Qed.

(** Every way a turn can go: the query, the record, the callbacks and the
    flag. *)
Ltac reduce_turn :=
  cbv -[strict_eq or_else lookup to_string instanceof_Error];
  repeat match goal with
         | |- context [strict_eq None ?b] => change (strict_eq None b) with false
         | |- context [strict_eq (lookup ?k ?f) ?b] =>
             destruct (strict_eq (lookup k f) b) eqn:?
         | |- context [or_else (lookup ?k ?f) ?b] =>
             destruct (or_else (lookup k f) b) eqn:?
         | |- context [instanceof_Error ?e] => is_var e; destruct e
         end.

Ltac split_turn answer in_try in_catch flag :=
  unfold turn_effects, checkStatus_resume;
  (destruct (query_outcome answer) as [[[| | | | |?fields] [_ ->]] | [?e ->]]);
  destruct in_try as [[|] [?e|]], in_catch as [[|] [?e|]], flag;
  reduce_turn; reduce_turn; reduce_turn;
  cbv -[strict_eq or_else lookup to_string].

Lemma turn_summary (answer : fetch_result) (in_try in_catch : reaction) (flag : bool) :
  let out := checkStatus_resume answer in_try in_catch flag in
  let fx := turn_effects answer in_try in_catch flag in
  let w := timer_of (effects (snd out)) in
  (flag = true -> fst out = true) /\
  count is_fetch fx = 0 /\
  (forall tid, Forall (expected_of tid) fx) /\
  ((w = Scheduled 1000 /\ count is_progress fx = 1 /\
    count is_terminal fx = 0 /\ throws in_try = None)
   \/
   (w = Idle /\ count is_progress fx <= 1 /\ count is_terminal fx <= 2 /\
    count is_complete fx <= 1 /\
    (throws in_try = None -> count is_terminal fx <= 1))) /\
  (flag = true -> length (callbacks fx) <= 1).
Proof.
  cbv zeta.
  split_turn answer in_try in_catch flag.
  all: try solve [
    split; [intros; (reflexivity || discriminate)|];
    split; [reflexivity|];
    split; [intros tid; repeat constructor|];
    split; [|intros; (discriminate || (cbn; lia))];
    first [ left; repeat split; reflexivity
          | right; repeat split; intros; (discriminate || (cbn; lia)) ] ].
Qed.

Lemma count_none (f : effect -> bool) (fx : list effect) :
  count f fx = 0 -> filter f fx = [].
Proof. unfold count. now destruct (filter f fx). Qed.

(** A status query that fails reaches the [catch] of [checkStatus], which
    consults the flag; with a callback that returns, this is the whole
    turn. *)
Lemma resume_raised (flag : bool) (answer : fetch_result) (e : thrown) :
  outcome (checkTaskStatus_resume answer) = Raised e ->
  checkStatus_resume answer returns returns flag =
    (flag,
     (ConsoleError "Error checking task status:" e ::
        (if flag then []
         else [OnError (if instanceof_Error e then e
                        else new_Error "Failed to check task status")]),
      Returned tt)).
Proof.
  intros H. unfold checkStatus_resume.
  destruct (query_outcome answer) as [[j [_ E]] | [e' E]]; rewrite E in *.
  - discriminate H.
  - cbn [outcome snd] in H. injection H as ->.
    destruct flag; reflexivity.
Qed.

(** ** Runs of the event loop *)

Lemma run_app (p : poller) (xs ys : list action) :
  run p (xs ++ ys) =
    match run p xs with
    | Some q => run q ys
    | None => None
    end.
Proof.
  revert p. induction xs as [|a xs IH]; intros p; cbn [run app].
  - reflexivity.
  - destruct (step p a); [apply IH | reflexivity].
Qed.

Lemma step_keeps_flag (p q : poller) (a : action) :
  step p a = Some q -> isCancelled p = true -> isCancelled q = true.
Proof.
  unfold step.
  destruct a as [|answer f s|], (pending p);
    intros H; inversion H; clear H; subst; intros Hc.
  1-3: reflexivity.
  - cbn [checkStatus_resumed isCancelled].
    now apply (turn_summary answer f s (isCancelled p)).
  - unfold checkStatus. rewrite Hc. reflexivity.
Qed.

Lemma run_keeps_flag (acts : list action) :
  forall p q, run p acts = Some q -> isCancelled p = true -> isCancelled q = true.
Proof.
  induction acts as [|a acts IH]; intros p q; cbn [run].
  - intros H; inversion H; trivial.
  - destruct (step p a) as [p1|] eqn:E; [|discriminate].
    intros H Hc. apply (IH p1 q H). exact (step_keeps_flag p p1 a E Hc).
Qed.

Lemma cancel_when_cancelled (p : poller) :
  isCancelled p = true -> cancel p = p.
Proof. destruct p as [t c w tr]; cbn. intros ->; reflexivity. Qed.

Lemma resumed_trace (p : poller) (answer : fetch_result) (f s : reaction) :
  trace (checkStatus_resumed p answer f s) =
    trace p ++ turn_effects answer f s (isCancelled p).
Proof. reflexivity. Qed.

Lemma step_extends_trace (p q : poller) (a : action) :
  step p a = Some q -> exists more, trace q = trace p ++ more.
Proof.
  unfold step, checkStatus.
  destruct a as [|answer f s|], (pending p);
    intros H; inversion H; clear H; subst;
    try (exists []; cbn [cancel trace]; now rewrite app_nil_r).
  - eexists. apply resumed_trace.
  - destruct (isCancelled p); cbn [trace];
      [exists []; now rewrite app_nil_r | eexists; reflexivity].
Qed.

Lemma run_extends_trace (acts : list action) :
  forall p q, run p acts = Some q -> exists more, trace q = trace p ++ more.
Proof.
  induction acts as [|a acts IH]; intros p q; cbn [run].
  - intros H; inversion H. exists []. now rewrite app_nil_r.
  - destruct (step p a) as [p1|] eqn:E; [|discriminate].
    intros H. destruct (step_extends_trace _ _ _ E) as [m1 H1].
    destruct (IH _ _ H) as [m2 H2].
    exists (m1 ++ m2). now rewrite H2, H1, app_assoc.
Qed.

(** Nothing is left to run once a sequence is [Idle]: only [Cancel] can
    still happen, and it performs no effect. *)
Lemma idle_is_final (acts : list action) :
  forall p q, pending p = Idle -> run p acts = Some q ->
              trace q = trace p /\ pending q = Idle.
Proof.
  induction acts as [|a acts IH]; intros p q Hp; cbn [run].
  - intros H; inversion H; subst; auto.
  - unfold step. rewrite Hp. destruct a; try discriminate.
    intros H. apply (IH (cancel p) q) in H; [|exact Hp]. exact H.
Qed.

(** A cancelled sequence whose only pending work is the timer performs no
    further effect: when the timer fires, [checkStatus] returns at its
    first line. *)
Lemma cancelled_timer_is_inert (acts : list action) :
  forall p q ms, isCancelled p = true -> pending p = Scheduled ms ->
                 run p acts = Some q -> trace q = trace p.
Proof.
  induction acts as [|a acts IH]; intros p q ms Hc Hp; cbn [run].
  - intros H; inversion H; reflexivity.
  - unfold step. rewrite Hp. destruct a; try discriminate.
    + intros H. apply (IH (cancel p) q ms) in H; auto.
    + intros H. apply idle_is_final in H.
      * destruct H as [H _]. rewrite H. unfold checkStatus. now rewrite Hc.
      * unfold checkStatus. now rewrite Hc.
Qed.

Lemma settle_in_flight (p : poller) (answer : fetch_result) (f s : reaction) :
  pending p = InFlight ->
  step p (SettleWith answer f s) = Some (checkStatus_resumed p answer f s).
Proof. intros Hp. unfold step. now rewrite Hp. Qed.

(** After a turn the sequence waits for its timer, set to 1000 ms by a
    progress callback that returned, or for nothing. *)
Lemma resumed_pending (p : poller) (answer : fetch_result) (f s : reaction) :
  (pending (checkStatus_resumed p answer f s) = Scheduled 1000 /\ throws f = None)
  \/ pending (checkStatus_resumed p answer f s) = Idle.
Proof.
  cbn [checkStatus_resumed pending].
  destruct (turn_summary answer f s (isCancelled p))
    as [_ [_ [_ [[[H [_ [_ Hf]]] | [H _]] _]]]]; auto.
Qed.

(** The state after a turn, by what the record says. *)
Lemma resumed_progress (p : poller) (answer : fetch_result) (j : json)
    (f s : reaction) :
  answers_with answer j -> non_terminal j ->
  checkStatus_resumed p answer f s =
    let out := attempt (and_then (invoke (OnProgress j) f)
                                 (fun _ => lift (emit (SetTimeout 1000))))
                       (fun e => checkStatus_catch e s) (isCancelled p) in
    {| taskId := taskId p; isCancelled := fst out;
       pending := timer_of (effects (snd out));
       trace := trace p ++ effects (snd out) ++ unhandled (outcome (snd out)) |}.
Proof.
  intros Ha [v [Hs [Hc He]]]. unfold checkStatus_resumed.
  now rewrite (resume_progress answer j Ha f s (isCancelled p) v Hs Hc He).
Qed.

Lemma resumed_completed (p : poller) (answer : fetch_result) (j : json)
    (f s : reaction) :
  answers_with answer j ->
  get_prop j "status" = ret (Some (JStr "completed")) ->
  checkStatus_resumed p answer f s =
    let out := attempt (invoke (OnComplete j) f)
                       (fun e => checkStatus_catch e s) (isCancelled p) in
    {| taskId := taskId p; isCancelled := fst out;
       pending := timer_of (effects (snd out));
       trace := trace p ++ effects (snd out) ++ unhandled (outcome (snd out)) |}.
Proof.
  intros Ha Hs. unfold checkStatus_resumed.
  now rewrite (resume_completed answer j Ha f s (isCancelled p) Hs).
Qed.

Lemma resumed_failed (p : poller) (answer : fetch_result) (j : json)
    (f s : reaction) (v : value) (m : string) :
  answers_with answer j ->
  get_prop j "status" = ret (Some (JStr "error")) ->
  get_prop j "error" = ret v ->
  or_else v "Task failed" = Some m ->
  checkStatus_resumed p answer f s =
    let out := attempt (invoke (OnError (new_Error m)) f)
                       (fun e => checkStatus_catch e s) (isCancelled p) in
    {| taskId := taskId p; isCancelled := fst out;
       pending := timer_of (effects (snd out));
       trace := trace p ++ effects (snd out) ++ unhandled (outcome (snd out)) |}.
Proof.
  intros Ha Hs Hv Hm. unfold checkStatus_resumed.
  now rewrite (resume_failed answer j Ha f s (isCancelled p) v m Hs Hv Hm).
Qed.

Lemma lets_polling_go_on_dec (f : reaction) :
  {lets_polling_go_on f} + {~ lets_polling_go_on f}.
Proof.
  unfold lets_polling_go_on. destruct f as [[|] [e|]]; cbn;
    [right | right | right | left]; intuition discriminate.
Qed.

(** A round of polling: the query is answered with a record that keeps the
    sequence polling, the progress callback returns without cancelling, the
    timer fires, and the next query is issued. *)
Lemma polling_round (p : poller) (a : fetch_result) (j : json)
    (f s : reaction) (rest : list action) :
  pending p = InFlight -> isCancelled p = false ->
  answers_with a j -> non_terminal j ->
  lets_polling_go_on f ->
  run p (SettleWith a f s :: TimerFires :: rest) =
    run {| taskId := taskId p; isCancelled := false; pending := InFlight;
           trace := trace p ++ [OnProgress j; SetTimeout 1000;
                                Fetch (checkTaskStatus_request (taskId p))] |}
        rest.
Proof.
  intros Hp Hc Ha Hn [Ht Hk]. destruct f as [c t]. cbn in Ht, Hk. subst.
  cbn [run]. rewrite (settle_in_flight p a _ s Hp).
  rewrite (resumed_progress p a j _ s Ha Hn). rewrite Hc.
  cbn [attempt and_then invoke lift emit cancels throws app fst snd effects outcome
       unhandled timer_of fold_left step pending checkStatus isCancelled taskId trace].
  rewrite <- app_assoc. reflexivity.
Qed.

(** When the progress callback throws or cancels, no further query is
    ever answered. *)
Lemma polling_stops (p : poller) (a : fetch_result) (j : json)
    (f s : reaction) (a' : fetch_result) (f' s' : reaction) (rest : list action) :
  pending p = InFlight -> isCancelled p = false ->
  answers_with a j -> non_terminal j ->
  ~ lets_polling_go_on f ->
  run p (SettleWith a f s :: TimerFires :: SettleWith a' f' s' :: rest) = None.
Proof.
  intros Hp Hc Ha Hn Hf.
  cbn [run]. rewrite (settle_in_flight p a f s Hp).
  rewrite (resumed_progress p a j f s Ha Hn). rewrite Hc.
  destruct f as [[|] [e|]], s as [[|] [e'|]];
    try reflexivity.
  all: exfalso; apply Hf; split; reflexivity.
Qed.

(** The turn in which a completed record arrives. *)
Lemma completed_turn (p : poller) (a : fetch_result) (c : json) (f s : reaction) :
  answers_with a c ->
  get_prop c "status" = ret (Some (JStr "completed")) ->
  exists tail,
    trace (checkStatus_resumed p a f s) = trace p ++ OnComplete c :: tail /\
    filter is_progress tail = [] /\
    filter is_complete tail = [] /\
    fetches tail = [] /\
    pending (checkStatus_resumed p a f s) = Idle /\
    (throws f = None -> tail = []).
Proof.
  intros Ha Hs. rewrite (resumed_completed p a c f s Ha Hs).
  destruct f as [[|] [e|]], s as [[|] [e'|]], (isCancelled p);
    eexists; (split; [reflexivity|]);
    repeat split; intros; reflexivity || discriminate.
Qed.

(** ** Polling without cancellation *)

(** C4: the first three status queries of a polling sequence are answered
    with records whose statuses are queued, running and completed exactly
    when the first two progress callbacks return without cancelling.  When
    they are, whatever else the callbacks do, the progress callback is
    called exactly twice, with the queued then the running record, the
    completion callback exactly once, with the completed record, three
    requests are issued in all, and nothing can happen afterwards that
    issues another; if the completion callback returns, the trace is
    exactly these calls, the two timers and the three requests. *)
Theorem queued_running_completed
    (tid : string) (a1 a2 a3 : fetch_result) (q r c : json)
    (f1 s1 f2 s2 f3 s3 : reaction) :
  answers_with a1 q -> answers_with a2 r -> answers_with a3 c ->
  get_prop q "status" = ret (Some (JStr "queued")) ->
  get_prop r "status" = ret (Some (JStr "running")) ->
  get_prop c "status" = ret (Some (JStr "completed")) ->
  let acts := [SettleWith a1 f1 s1; TimerFires;
               SettleWith a2 f2 s2; TimerFires;
               SettleWith a3 f3 s3] in
  (lets_polling_go_on f1 /\ lets_polling_go_on f2 <->
   exists p, run (pollTaskStatus tid) acts = Some p) /\
  forall p,
    run (pollTaskStatus tid) acts = Some p ->
    filter is_progress (trace p) = [OnProgress q; OnProgress r] /\
    filter is_complete (trace p) = [OnComplete c] /\
    length (fetches (trace p)) = 3 /\
    pending p = Idle /\
    (forall more p', run p more = Some p' -> trace p' = trace p) /\
    (throws f3 = None ->
     trace p =
       [Fetch (checkTaskStatus_request tid); OnProgress q; SetTimeout 1000;
        Fetch (checkTaskStatus_request tid); OnProgress r; SetTimeout 1000;
        Fetch (checkTaskStatus_request tid); OnComplete c]).
Proof.
  intros H1 H2 H3 Hq Hr Hc acts.
  assert (Nq : non_terminal q) by (eexists; split; [exact Hq | split; reflexivity]).
  assert (Nr : non_terminal r) by (eexists; split; [exact Hr | split; reflexivity]).
  destruct (lets_polling_go_on_dec f1) as [L1|L1].
  2: { assert (E : run (pollTaskStatus tid) acts = None)
         by (apply (polling_stops _ a1 q); auto).
       split; [|intros p H; rewrite E in H; discriminate].
       split; [intros [L _]; contradiction|].
       intros [p H]. rewrite E in H. discriminate. }
  unfold acts.
  rewrite (polling_round (pollTaskStatus tid) a1 q f1 s1 _
             eq_refl eq_refl H1 Nq L1).
  cbn [pollTaskStatus checkStatus isCancelled taskId trace app].
  destruct (lets_polling_go_on_dec f2) as [L2|L2].
  2: { match goal with |- context [run ?p0 ?l] =>
         assert (E : run p0 l = None) by (apply (polling_stops _ a2 r); auto)
       end.
       split; [|intros p H; rewrite E in H; discriminate].
       split; [intros [_ L]; contradiction|].
       intros [p H]. rewrite E in H. discriminate. }
  rewrite polling_round with (j := r) by (reflexivity || assumption).
  cbn [isCancelled taskId trace app run].
  rewrite settle_in_flight by reflexivity.
  split; [split; [intros _; eexists; reflexivity | auto]|].
  intros p H. injection H as <-.
  destruct (completed_turn
              {| taskId := tid; isCancelled := false; pending := InFlight;
                 trace := [Fetch (checkTaskStatus_request tid); OnProgress q;
                           SetTimeout 1000;
                           Fetch (checkTaskStatus_request tid); OnProgress r;
                           SetTimeout 1000;
                           Fetch (checkTaskStatus_request tid)] |}
              a3 c f3 s3 H3 Hc) as [tail [Ht [Tp [Tc [Tf [Hi Hn]]]]]].
  rewrite Ht. cbn [trace app].
  unfold fetches in *. cbn [filter is_progress is_complete is_fetch].
  rewrite Tp, Tc, Tf.
  repeat split; try reflexivity.
  - exact Hi.
  - intros more p' Hr'. apply idle_is_final in Hr'; [|exact Hi].
    destruct Hr' as [-> _]. rewrite Ht. reflexivity.
  - intros Hf. now rewrite (Hn Hf).
Qed.

Lemma queued_running_completed_witness :
  let a1 := Sample.responds 200 "OK" (Decodes (Sample.record "queued")) in
  let a2 := Sample.responds 200 "OK" (Decodes (Sample.record "running")) in
  let a3 := Sample.responds 200 "OK" (Decodes (Sample.record "completed")) in
  let acts := [Settle a1; TimerFires; Settle a2; TimerFires; Settle a3] in
  (lets_polling_go_on returns /\ lets_polling_go_on returns <->
   exists p, run (pollTaskStatus "task-1") acts = Some p) /\
  forall p,
    run (pollTaskStatus "task-1") acts = Some p ->
    filter is_progress (trace p)
      = [OnProgress (Sample.record "queued"); OnProgress (Sample.record "running")] /\
    filter is_complete (trace p) = [OnComplete (Sample.record "completed")] /\
    length (fetches (trace p)) = 3 /\
    pending p = Idle /\
    (forall more p', run p more = Some p' -> trace p' = trace p) /\
    (throws returns = None ->
     trace p =
       [Fetch (checkTaskStatus_request "task-1");
        OnProgress (Sample.record "queued"); SetTimeout 1000;
        Fetch (checkTaskStatus_request "task-1");
        OnProgress (Sample.record "running"); SetTimeout 1000;
        Fetch (checkTaskStatus_request "task-1");
        OnComplete (Sample.record "completed")]).
Proof.
  apply (queued_running_completed "task-1" _ _ _ _ _ _
           returns returns returns returns returns returns).
  - eexists; repeat split; reflexivity.
  - eexists; repeat split; reflexivity.
  - eexists; repeat split; reflexivity.
  - reflexivity.
  - reflexivity.
  - reflexivity.
Defined.

(** What C4 does not promise: a completion callback that throws is followed
    by the error callback, which receives what was thrown. *)
Example throwing_onComplete_reaches_onError :
  option_map trace
    (run (pollTaskStatus "task-1")
         [SettleWith (Sample.responds 200 "OK" (Decodes (Sample.record "completed")))
                     {| cancels := false; throws := Some (new_Error "render failed") |}
                     returns])
  = Some [Fetch (checkTaskStatus_request "task-1");
          OnComplete (Sample.record "completed");
          OnError (new_Error "render failed")].
Proof. reflexivity. Qed.

(** C5, as the specification words it, fails: a record with status error
    whose [error] field is the empty text makes the error callback receive
    "Task failed", not the field. *)
Lemma task_error_with_empty_error_field :
  ~ task_error_message_is_error_field.
Proof.
  intros claim.
  destruct (claim (pollTaskStatus "task-1")
                  (Sample.responds 200 "OK" (Decodes (Sample.failed_record "")))
                  (Sample.failed_record "") ""
                  eq_refl
                  (ex_intro _ _ (conj eq_refl (conj eq_refl eq_refl)))
                  eq_refl eq_refl) as [p' [e [Hstep [Htrace Hmsg]]]].
  cbv in Hstep. injection Hstep as <-.
  cbv in Htrace. injection Htrace as <-.
  discriminate Hmsg.
Qed.

(** The turn in which a record with status error arrives. *)
Lemma failed_turn (p : poller) (a : fetch_result) (j : json) (f s : reaction)
    (v : value) (m : string) :
  answers_with a j ->
  get_prop j "status" = ret (Some (JStr "error")) ->
  get_prop j "error" = ret v ->
  or_else v "Task failed" = Some m ->
  exists tail,
    trace (checkStatus_resumed p a f s) = trace p ++ OnError (new_Error m) :: tail /\
    fetches tail = [] /\
    pending (checkStatus_resumed p a f s) = Idle /\
    (throws f = None -> tail = []).
Proof.
  intros Ha Hs Hv Hm. rewrite (resumed_failed p a j f s v m Ha Hs Hv Hm).
  destruct f as [[|] [e|]], s as [[|] [e'|]], (isCancelled p);
    eexists; (split; [reflexivity|]);
    repeat split; intros; reflexivity || discriminate.
Qed.

(** C5, amended: when a status query is answered with a record whose status
    is error and whose [error] field is absent or a text, the error callback
    is called with an [Error] whose message is the field when it is a
    non-empty text and "Task failed" when it is absent or empty; if that
    call returns, it is the only effect of the turn; and in every case no
    request is issued in that turn and nothing can happen afterwards that
    issues one. *)
Theorem task_error_reported_once
    (p : poller) (answer : fetch_result) (j : json) (in_try in_catch : reaction) :
  pending p = InFlight ->
  answers_with answer j ->
  get_prop j "status" = ret (Some (JStr "error")) ->
  (get_prop j "error" = ret None \/
   exists M, get_prop j "error" = ret (Some (JStr M))) ->
  exists p' msg tail,
    step p (SettleWith answer in_try in_catch) = Some p' /\
    trace p' = trace p ++ OnError (new_Error msg) :: tail /\
    (throws in_try = None -> tail = []) /\
    fetches tail = [] /\
    (forall M, get_prop j "error" = ret (Some (JStr M)) -> M <> "" -> msg = M) /\
    (get_prop j "error" = ret None \/ get_prop j "error" = ret (Some (JStr "")) ->
     msg = "Task failed") /\
    pending p' = Idle /\
    forall acts p'', run p' acts = Some p'' -> trace p'' = trace p'.
Proof.
  intros Hp Ha Hs Hfield.
  assert (Hm : exists v m, get_prop j "error" = ret v /\
                           or_else v "Task failed" = Some m /\
                           (forall M, v = Some (JStr M) -> M <> "" -> m = M) /\
                           (v = None \/ v = Some (JStr "") -> m = "Task failed")).
  { destruct Hfield as [H|[M H]].
    - exists None, "Task failed". repeat split; auto. discriminate.
    - destruct (String.eqb_spec M "") as [->|Hne].
      + exists (Some (JStr "")), "Task failed". repeat split; auto.
        intros M' HM' Hne'. injection HM' as <-. contradiction.
      + exists (Some (JStr M)), M. split; [exact H|].
        split; [now apply or_else_text|]. split.
        * intros M' HM' _. now injection HM'.
        * intros [H'|H']; [discriminate | injection H' as ->; contradiction]. }
  destruct Hm as [v [m [Hv [Hor [Hsome Hnone]]]]].
  destruct (failed_turn p answer j in_try in_catch v m Ha Hs Hv Hor)
    as [tail [Ht [Tf [Hi Hn]]]].
  exists (checkStatus_resumed p answer in_try in_catch), m, tail.
  split; [now apply settle_in_flight|].
  split; [exact Ht|]. split; [exact Hn|]. split; [exact Tf|].
  split; [|split; [|split]].
  - intros M HM. rewrite Hv in HM. injection HM as ->. now apply Hsome.
  - intros [H|H]; rewrite Hv in H; injection H as ->; apply Hnone; auto.
  - exact Hi.
  - intros acts p'' H. now apply idle_is_final in H.
Qed.

Lemma task_error_reported_once_witness :
  exists p' msg tail,
    step (pollTaskStatus "task-1")
         (Settle (Sample.responds 200 "OK"
                    (Decodes (Sample.failed_record "Could not read video")))) = Some p' /\
    trace p' = trace (pollTaskStatus "task-1") ++ OnError (new_Error msg) :: tail /\
    (throws returns = None -> tail = []) /\
    fetches tail = [] /\
    (forall M, get_prop (Sample.failed_record "Could not read video") "error"
                 = ret (Some (JStr M)) -> M <> "" -> msg = M) /\
    (get_prop (Sample.failed_record "Could not read video") "error" = ret None \/
     get_prop (Sample.failed_record "Could not read video") "error"
       = ret (Some (JStr "")) ->
     msg = "Task failed") /\
    pending p' = Idle /\
    forall acts p'', run p' acts = Some p'' -> trace p'' = trace p'.
Proof.
  apply (task_error_reported_once (pollTaskStatus "task-1")).
  - reflexivity.
  - eexists; repeat split; reflexivity.
  - reflexivity.
  - right. eexists. reflexivity.
Defined.

(** What C5 does not promise.  An error callback that throws is called a
    second time, from the [catch], with what it threw; and an [error] field
    that cannot be converted to a text (an object with a key [toString])
    sends the [TypeError] of the conversion to the error callback. *)
Example throwing_onError_is_called_again :
  option_map trace
    (run (pollTaskStatus "task-1")
         [SettleWith (Sample.responds 200 "OK" (Decodes (Sample.failed_record "bad file")))
                     {| cancels := false; throws := Some (new_Error "render failed") |}
                     returns])
  = Some [Fetch (checkTaskStatus_request "task-1");
          OnError (new_Error "bad file");
          OnError (new_Error "render failed")].
Proof. reflexivity. Qed.

Example unconvertible_error_field :
  option_map trace
    (run (pollTaskStatus "task-1")
         [Settle (Sample.responds 200 "OK"
                    (Decodes (JObj [("status", JStr "error");
                                    ("error", JObj [("toString", JStr "x")])])))])
  = Some [Fetch (checkTaskStatus_request "task-1");
          OnError (ErrorObject TypeError uncoercible_message)].
Proof. reflexivity. Qed.

(** ** Cancellation *)

(** C10: when [pollTaskStatus] returns, the first status query for the task
    has already been issued, and it stays issued whatever follows, the
    immediate invocation of the returned function included. *)
Theorem first_query_precedes_cancellation
    (tid : string) (acts : list action) (p' : poller) :
  run (pollTaskStatus tid) (Cancel :: acts) = Some p' ->
  trace (pollTaskStatus tid) = [Fetch (checkTaskStatus_request tid)] /\
  pending (pollTaskStatus tid) = InFlight /\
  exists more, trace p' = Fetch (checkTaskStatus_request tid) :: more.
Proof.
  intros H. split; [reflexivity|]. split; [reflexivity|].
  apply run_extends_trace in H. destruct H as [more H].
  exists more. exact H.
Qed.

Lemma first_query_precedes_cancellation_witness :
  trace (pollTaskStatus "task-1") = [Fetch (checkTaskStatus_request "task-1")] /\
  pending (pollTaskStatus "task-1") = InFlight /\
  exists more,
    trace (cancel (pollTaskStatus "task-1"))
      = Fetch (checkTaskStatus_request "task-1") :: more.
Proof.
  apply (first_query_precedes_cancellation "task-1" [] (cancel (pollTaskStatus "task-1"))).
  reflexivity.
Defined.

(** C6: when the returned function is invoked while the only pending work
    of the sequence is the timer set after a progress callback, nothing that
    happens afterwards performs any effect: no callback, no request. *)
Theorem cancel_before_scheduled_poll
    (p : poller) (ms : N) (acts : list action) (p' : poller) :
  pending p = Scheduled ms ->
  run p (Cancel :: acts) = Some p' ->
  trace p' = trace p /\
  callbacks (trace p') = callbacks (trace p) /\
  fetches (trace p') = fetches (trace p).
Proof.
  intros Hp H. cbn [run step] in H.
  apply (cancelled_timer_is_inert acts (cancel p) p' ms) in H.
  - cbn [cancel trace] in H. rewrite H. auto.
  - reflexivity.
  - exact Hp.
Qed.

Lemma cancel_before_scheduled_poll_witness :
  let p := checkStatus_settled (pollTaskStatus "task-1")
             (Sample.responds 200 "OK" (Decodes (Sample.record "queued"))) in
  let p' := checkStatus (cancel p) in
  trace p = [Fetch (checkTaskStatus_request "task-1");
             OnProgress (Sample.record "queued"); SetTimeout 1000] /\
  trace p' = trace p /\
  callbacks (trace p') = callbacks (trace p) /\
  fetches (trace p') = fetches (trace p).
Proof.
  split; [reflexivity|].
  apply (cancel_before_scheduled_poll
           (checkStatus_settled (pollTaskStatus "task-1")
              (Sample.responds 200 "OK" (Decodes (Sample.record "queued"))))
           1000 [TimerFires]).
  - reflexivity.
  - reflexivity.
Defined.

(** C7: a second invocation of the returned function changes nothing: the
    state after it is the state before it, so every run in which the
    function is invoked again, at any later point, ends exactly as the run
    without that invocation. *)
Theorem cancel_idempotent
    (p : poller) (before between after : list action) :
  cancel (cancel p) = cancel p /\
  run p (before ++ Cancel :: between ++ Cancel :: after) =
  run p (before ++ Cancel :: between ++ after).
Proof.
  split; [reflexivity|].
  rewrite !run_app.
  destruct (run p before) as [p1|]; [|reflexivity].
  cbn [run step]. rewrite !run_app.
  destruct (run (cancel p1) between) as [p2|] eqn:E; [|reflexivity].
  cbn [run step].
  rewrite (cancel_when_cancelled p2); [reflexivity|].
  exact (run_keeps_flag between (cancel p1) p2 E eq_refl).
Qed.

(** The guard the code does have: a status query that fails after the
    returned function was invoked reaches no callback. *)
Lemma cancelled_failure_is_silent
    (p : poller) (answer : fetch_result) (e : thrown) :
  isCancelled p = true ->
  outcome (checkTaskStatus_resume answer) = Raised e ->
  callbacks (trace (checkStatus_settled p answer)) = callbacks (trace p).
Proof.
  intros Hc He. unfold checkStatus_settled, checkStatus_resumed.
  rewrite (resume_raised _ _ e He), Hc. cbn [trace fst snd effects outcome unhandled].
  unfold callbacks. rewrite filter_app. cbn. apply app_nil_r.
Qed.

(** C1, at a request that is in flight when the returned function is
    invoked: the flag is set and no callback has fired, the request is then
    answered with a completed record, and the completion callback fires. *)
Theorem cancel_in_flight_still_completes :
  let answer := Sample.responds 200 "OK" (Decodes (Sample.record "completed")) in
  exists p1 p2,
    step (pollTaskStatus "task-1") Cancel = Some p1 /\
    isCancelled p1 = true /\
    pending p1 = InFlight /\
    callbacks (trace p1) = [] /\
    step p1 (Settle answer) = Some p2 /\
    callbacks (trace p2) = [OnComplete (Sample.record "completed")].
Proof.
  do 2 eexists. repeat split.
Qed.

(** What does hold once the returned function has been invoked: the request
    in flight, if there is one, can still reach one callback, and that is
    the last effect of the sequence besides the timer it may set. *)
Lemma cancelled_run_at_most_one_callback (acts : list action) :
  forall p q, isCancelled p = true -> run p acts = Some q ->
              length (callbacks (trace q)) <= length (callbacks (trace p)) + 1.
Proof.
  induction acts as [|a acts IH]; intros p q Hc; cbn [run].
  - intros H; inversion H; lia.
  - destruct (pending p) eqn:Hp.
    + intros H. change (run p (a :: acts) = Some q) in H.
      apply idle_is_final in H; [|exact Hp]. destruct H as [-> _]. lia.
    + unfold step. rewrite Hp. destruct a as [|answer f s|]; try discriminate.
      * intros H. rewrite (cancel_when_cancelled p Hc) in H. now apply IH.
      * intros H.
        assert (Hq : isCancelled (checkStatus_resumed p answer f s) = true)
          by (apply (step_keeps_flag p _ (SettleWith answer f s));
              [now apply settle_in_flight | exact Hc]).
        assert (Ht : trace q = trace (checkStatus_resumed p answer f s)).
        { destruct (resumed_pending p answer f s) as [[Hs _]|Hi].
          - now apply (cancelled_timer_is_inert acts _ q 1000) in H.
          - now apply idle_is_final in H. }
        rewrite Ht, resumed_trace.
        unfold callbacks. rewrite filter_app, length_app.
        destruct (turn_summary answer f s (isCancelled p)) as [_ [_ [_ [_ Hcb]]]].
        specialize (Hcb Hc). unfold callbacks in Hcb. lia.
    + intros H. change (run p (a :: acts) = Some q) in H.
      apply (cancelled_timer_is_inert _ p q ms) in H; auto. rewrite H. lia.
Qed.

Lemma cancelled_run_no_fetch (acts : list action) :
  forall p q, isCancelled p = true -> run p acts = Some q ->
              fetches (trace q) = fetches (trace p).
Proof.
  induction acts as [|a acts IH]; intros p q Hc; cbn [run].
  - intros H; inversion H; reflexivity.
  - destruct (pending p) eqn:Hp.
    + intros H. change (run p (a :: acts) = Some q) in H.
      apply idle_is_final in H; [|exact Hp]. now destruct H as [-> _].
    + unfold step. rewrite Hp. destruct a as [|answer f s|]; try discriminate.
      * intros H. rewrite (cancel_when_cancelled p Hc) in H. now apply IH.
      * intros H.
        assert (Hq : isCancelled (checkStatus_resumed p answer f s) = true)
          by (apply (step_keeps_flag p _ (SettleWith answer f s));
              [now apply settle_in_flight | exact Hc]).
        assert (Ht : trace q = trace (checkStatus_resumed p answer f s)).
        { destruct (resumed_pending p answer f s) as [[Hs _]|Hi].
          - now apply (cancelled_timer_is_inert acts _ q 1000) in H.
          - now apply idle_is_final in H. }
        rewrite Ht, resumed_trace.
        unfold fetches at 1. rewrite filter_app.
        destruct (turn_summary answer f s (isCancelled p)) as [_ [Hf _]].
        rewrite (count_none _ _ Hf). apply app_nil_r.
    + intros H. change (run p (a :: acts) = Some q) in H.
      apply (cancelled_timer_is_inert _ p q ms) in H; auto. now rewrite H.
Qed.

(** * Further properties of the code *)

(** ** checkTaskStatus *)

(** The whole function is its request followed by the part that runs once
    the request has settled. *)
Lemma checkTaskStatus_split (fetch : request -> fetch_result) (taskId : string) :
  checkTaskStatus fetch taskId =
    (Fetch (checkTaskStatus_request taskId)
       :: effects (checkTaskStatus_resume (fetch (checkTaskStatus_request taskId))),
     outcome (checkTaskStatus_resume (fetch (checkTaskStatus_request taskId)))).
Proof.
  unfold checkTaskStatus, checkTaskStatus_resume, do_fetch.
  destruct (fetch (checkTaskStatus_request taskId)) as [r|e];
    cbn [await_fetch emit ret throw bind try_catch app]; [|reflexivity].
  split_response r; reflexivity.
Qed.


(** X2: on a non-2xx response whose body decodes to an object,
    [checkTaskStatus] raises; when the [error] field of the object is a
    non-empty text, what it raises is an [Error] with that text as message,
    and when the field is missing or empty, an [Error] with the message
    "Failed to check task status". *)
Theorem checkTaskStatus_rejection_message
    (fetch : request -> fetch_result) (taskId : string)
    (r : response) (fields : list (string * json)) :
  fetch (checkTaskStatus_request taskId) = Resolves r ->
  ok r = false ->
  payload r = Decodes (JObj fields) ->
  exists e,
    outcome (checkTaskStatus fetch taskId) = Raised e /\
    (forall X, lookup "error" fields = Some (JStr X) -> X <> "" ->
               e = new_Error X) /\
    (lookup "error" fields = None \/ lookup "error" fields = Some (JStr "") ->
     e = new_Error "Failed to check task status").
Proof.
  intros Hf Hok Hb.
  assert (E : outcome (checkTaskStatus fetch taskId) =
              Raised (match or_else (lookup "error" fields)
                                    "Failed to check task status" with
                      | Some m => new_Error m
                      | None => ErrorObject TypeError uncoercible_message
                      end)).
  { rewrite checkTaskStatus_split, Hf. unfold checkTaskStatus_resume.
    cbn [await_fetch ret bind]. rewrite Hok. cbn [negb]. unfold json_of.
    rewrite Hb. cbn [get_prop ret bind]. split_conversion; reflexivity. }
  eexists. split; [exact E|]. split.
  - intros X HX Hne. rewrite HX, or_else_text by exact Hne. reflexivity.
  - intros [H|H]; rewrite H; reflexivity.
Qed.

Lemma checkTaskStatus_rejection_message_witness :
  exists e,
    outcome (checkTaskStatus
               (fun _ => Sample.responds 404 "Not Found"
                           (Decodes (JObj [("error", JStr "Task not found")])))
               "task-1") = Raised e /\
    (forall X, lookup "error" [("error", JStr "Task not found")] = Some (JStr X) ->
               X <> "" -> e = new_Error X) /\
    (lookup "error" [("error", JStr "Task not found")] = None \/
     lookup "error" [("error", JStr "Task not found")] = Some (JStr "") ->
     e = new_Error "Failed to check task status").
Proof.
  apply (checkTaskStatus_rejection_message _ "task-1"
           {| status := 404; statusText := "Not Found";
              payload := Decodes (JObj [("error", JStr "Task not found")]) |}).
  - reflexivity.
  - reflexivity.
  - reflexivity.
Defined.

(** Outside X2: an [error] field that cannot be converted to a text makes
    the conversion, and so the function, raise a [TypeError]. *)
Example checkTaskStatus_unconvertible_error_field :
  outcome (checkTaskStatus
             (fun _ => Sample.responds 404 "Not Found"
                         (Decodes (JObj [("error", JObj [("toString", JStr "x")])])))
             "task-1") = Raised (ErrorObject TypeError uncoercible_message).
Proof. reflexivity. Qed.

(** X3: [checkTaskStatus] has no fallback for a body that does not decode:
    whether the response is 2xx or not, the failure of the decoder itself is
    logged and raised. *)
Theorem checkTaskStatus_undecodable
    (fetch : request -> fetch_result) (taskId : string)
    (r : response) (e : thrown) :
  fetch (checkTaskStatus_request taskId) = Resolves r ->
  payload r = Undecodable e ->
  checkTaskStatus fetch taskId =
    ([Fetch (checkTaskStatus_request taskId);
      ConsoleError "Error checking task status:" e],
     Raised e).
Proof.
  intros Hf Hb. rewrite checkTaskStatus_split, Hf. unfold checkTaskStatus_resume.
  cbn [await_fetch ret bind].
  destruct (ok r); cbn [negb ret bind]; unfold json_of; rewrite Hb; reflexivity.
Qed.

Lemma checkTaskStatus_undecodable_witness :
  checkTaskStatus (fun _ => Sample.responds 200 "OK" Sample.empty_body) "task-1" =
    ([Fetch (checkTaskStatus_request "task-1");
      ConsoleError "Error checking task status:"
        (ErrorObject SyntaxError "Unexpected end of JSON input")],
     Raised (ErrorObject SyntaxError "Unexpected end of JSON input")).
Proof.
  apply (checkTaskStatus_undecodable _ "task-1"
           {| status := 200; statusText := "OK"; payload := Sample.empty_body |}).
  - reflexivity.
  - reflexivity.
Defined.

(** ** Uploads, further *)

(** X5: an upload whose 2xx response has a body that does not decode is a
    failed upload: the failure of the decoder is logged, shown in a toast
    and raised.  This holds for a video upload and, separately, for an
    audio upload. *)
Theorem upload_accepted_but_undecodable
    (fetch : request -> fetch_result) (file : File) (frames : N)
    (r : response) (e : thrown) :
  ok r = true ->
  payload r = Undecodable e ->
  (fetch (uploadVideo_request file frames) = Resolves r ->
   uploadVideo fetch file frames =
     ([Fetch (uploadVideo_request file frames);
       ConsoleError "Error uploading video:" e;
       Toast (upload_toast e "Failed to upload video")],
      Raised e)) /\
  (fetch (uploadAudio_request file) = Resolves r ->
   uploadAudio fetch file =
     ([Fetch (uploadAudio_request file);
       ConsoleError "Error uploading audio:" e;
       Toast (upload_toast e "Failed to upload audio")],
      Raised e)).
Proof.
  intros Hok Hb. split; intros Hf.
  - unfold uploadVideo, do_fetch. rewrite Hf.
    cbn [await_fetch emit ret bind app]. rewrite Hok.
    cbn [negb ret bind]. unfold json_of. rewrite Hb. reflexivity.
  - unfold uploadAudio, do_fetch. rewrite Hf.
    cbn [await_fetch emit ret bind app]. rewrite Hok.
    cbn [negb ret bind]. unfold json_of. rewrite Hb. reflexivity.
Qed.

(** The witness answers the video request alone: the audio request of its
    network is rejected, and the video upload fails as stated all the
    same. *)
Lemma upload_accepted_but_undecodable_witness :
  let e := ErrorObject SyntaxError "Unexpected end of JSON input" in
  let fetch := fun req : request =>
    match method req, form req with
    | POST, [_; _] => Sample.responds 200 "OK" Sample.empty_body
    | _, _ => Rejects Sample.offline
    end in
  uploadVideo fetch Sample.clip 20 =
    ([Fetch (uploadVideo_request Sample.clip 20);
      ConsoleError "Error uploading video:" e;
      Toast (upload_toast e "Failed to upload video")],
     Raised e) /\
  uploadAudio fetch Sample.clip =
    ([Fetch (uploadAudio_request Sample.clip);
      ConsoleError "Error uploading audio:" Sample.offline;
      Toast (upload_toast Sample.offline "Failed to upload audio")],
     Raised Sample.offline).
Proof.
  split; [|reflexivity].
  apply (upload_accepted_but_undecodable
           (fun req : request =>
              match method req, form req with
              | POST, [_; _] => Sample.responds 200 "OK" Sample.empty_body
              | _, _ => Rejects Sample.offline
              end)
           Sample.clip 20
           {| status := 200; statusText := "OK"; payload := Sample.empty_body |}
           (ErrorObject SyntaxError "Unexpected end of JSON input")
           eq_refl eq_refl).
  reflexivity.
Defined.

(** X6: whatever the body of a non-2xx response is (an object with an
    [error] field, any other value, or nothing that decodes), [uploadVideo]
    raises an [Error] whose message is "Server error: ", the status code in
    decimal, a space and the reason phrase; the toast shows the same
    message. *)
Theorem uploadVideo_rejection_is_synthesized
    (fetch : request -> fetch_result) (file : File) (frames : N) (r : response) :
  fetch (uploadVideo_request file frames) = Resolves r ->
  ok r = false ->
  let m := ("Server error: " ++ decimal (status r) ++ " " ++ statusText r)%string in
  outcome (uploadVideo fetch file frames) = Raised (new_Error m) /\
  toasts (uploadVideo fetch file frames) =
    [Toast {| title := "Upload Error"; description := m; variant := "destructive" |}] /\
  contains (decimal (status r)) m = true /\
  contains (statusText r) m = true.
Proof.
  intros Hf Hok m.
  rewrite (uploadVideo_rejected fetch file frames r Hf Hok).
  split; [reflexivity|]. split; [reflexivity|].
  apply server_error_text_shows_status.
Qed.

Lemma uploadVideo_rejection_is_synthesized_witness :
  let fetch := fun _ : request =>
    Sample.responds 413 "Payload Too Large"
      (Decodes (JObj [("error", JStr "File too large")])) in
  outcome (uploadVideo fetch Sample.clip 20)
    = Raised (new_Error "Server error: 413 Payload Too Large") /\
  toasts (uploadVideo fetch Sample.clip 20) =
    [Toast {| title := "Upload Error";
              description := "Server error: 413 Payload Too Large";
              variant := "destructive" |}] /\
  contains "413" "Server error: 413 Payload Too Large" = true /\
  contains "Payload Too Large" "Server error: 413 Payload Too Large" = true.
Proof.
  apply (uploadVideo_rejection_is_synthesized
           (fun _ => Sample.responds 413 "Payload Too Large"
                       (Decodes (JObj [("error", JStr "File too large")])))
           Sample.clip 20
           {| status := 413; statusText := "Payload Too Large";
              payload := Decodes (JObj [("error", JStr "File too large")]) |});
    reflexivity.
Defined.

(** X7: on a non-2xx response whose body decodes to an object without an
    [error] field, or with an empty one, [uploadAudio] raises an [Error]
    with the message "Failed to upload audio". *)
Theorem uploadAudio_rejection_fallback
    (fetch : request -> fetch_result) (file : File) (r : response)
    (fields : list (string * json)) :
  fetch (uploadAudio_request file) = Resolves r ->
  ok r = false ->
  payload r = Decodes (JObj fields) ->
  lookup "error" fields = None \/ lookup "error" fields = Some (JStr "") ->
  outcome (uploadAudio fetch file) = Raised (new_Error "Failed to upload audio").
Proof.
  intros Hf Hok Hb Hv.
  rewrite (uploadAudio_rejected fetch file r (JObj fields) (lookup "error" fields)
             "Failed to upload audio" Hf Hok Hb eq_refl);
    [reflexivity|].
  destruct Hv as [H|H]; rewrite H; reflexivity.
Qed.

Lemma uploadAudio_rejection_fallback_witness :
  outcome (uploadAudio
             (fun _ => Sample.responds 400 "Bad Request"
                         (Decodes (JObj [("detail", JStr "no file")])))
             Sample.clip) = Raised (new_Error "Failed to upload audio").
Proof.
  apply (uploadAudio_rejection_fallback _ Sample.clip
           {| status := 400; statusText := "Bad Request";
              payload := Decodes (JObj [("detail", JStr "no file")]) |}
           [("detail", JStr "no file")]).
  - reflexivity.
  - reflexivity.
  - reflexivity.
  - left. reflexivity.
Defined.

(** X8: when [fetch] rejects with a value that is not an [Error], the toast
    of an upload shows the fixed text of that upload ("Failed to upload
    video", "Failed to upload audio") and the value itself is raised,
    unwrapped.  This holds for a video upload and, separately, for an
    audio upload. *)
Theorem upload_rejected_with_other_value
    (fetch : request -> fetch_result) (file : File) (frames : N) (v : value) :
  (fetch (uploadVideo_request file frames) = Rejects (OtherValue v) ->
   outcome (uploadVideo fetch file frames) = Raised (OtherValue v) /\
   toasts (uploadVideo fetch file frames) =
     [Toast {| title := "Upload Error"; description := "Failed to upload video";
               variant := "destructive" |}]) /\
  (fetch (uploadAudio_request file) = Rejects (OtherValue v) ->
   outcome (uploadAudio fetch file) = Raised (OtherValue v) /\
   toasts (uploadAudio fetch file) =
     [Toast {| title := "Upload Error"; description := "Failed to upload audio";
               variant := "destructive" |}]).
Proof.
  split; intros Hf.
  - unfold toasts, uploadVideo, do_fetch. rewrite Hf. split; reflexivity.
  - unfold toasts, uploadAudio, do_fetch. rewrite Hf. split; reflexivity.
Qed.

(** The witness rejects the audio request alone, with a value that is not
    an [Error]; the video request of its network is answered. *)
Lemma upload_rejected_with_other_value_witness :
  let fetch := fun req : request =>
    match form req with
    | [_] => Rejects (OtherValue (Some (JStr "aborted")))
    | _ => Sample.responds 200 "OK" (Decodes Sample.accepted)
    end in
  outcome (uploadVideo fetch Sample.clip 20) = Returned Sample.accepted /\
  outcome (uploadAudio fetch Sample.clip)
    = Raised (OtherValue (Some (JStr "aborted"))) /\
  toasts (uploadAudio fetch Sample.clip) =
    [Toast {| title := "Upload Error"; description := "Failed to upload audio";
              variant := "destructive" |}].
Proof.
  split; [reflexivity|].
  apply (upload_rejected_with_other_value
           (fun req : request =>
              match form req with
              | [_] => Rejects (OtherValue (Some (JStr "aborted")))
              | _ => Sample.responds 200 "OK" (Decodes Sample.accepted)
              end)
           Sample.clip 20 (Some (JStr "aborted"))).
  reflexivity.
Defined.

(** X9: no function of the module retries: whatever the network answers,
    an upload or a status check issues exactly one request, the one built
    from its arguments. *)
Theorem one_request_per_call
    (fetch : request -> fetch_result) (file : File) (frames : N) (taskId : string) :
  fetches (effects (uploadVideo fetch file frames))
    = [Fetch (uploadVideo_request file frames)] /\
  fetches (effects (uploadAudio fetch file))
    = [Fetch (uploadAudio_request file)] /\
  fetches (effects (checkTaskStatus fetch taskId))
    = [Fetch (checkTaskStatus_request taskId)].
Proof.
  split; [|split].
  - unfold uploadVideo, do_fetch.
    destruct (fetch (uploadVideo_request file frames)) as [r|e];
      cbn [await_fetch emit ret throw bind try_catch app]; [|reflexivity].
    split_response r; reflexivity.
  - unfold uploadAudio, do_fetch.
    destruct (fetch (uploadAudio_request file)) as [r|e];
      cbn [await_fetch emit ret throw bind try_catch app]; [|reflexivity].
    split_response r; reflexivity.
  - unfold checkTaskStatus, do_fetch.
    destruct (fetch (checkTaskStatus_request taskId)) as [r|e];
      cbn [await_fetch emit ret throw bind try_catch app]; [|reflexivity].
    split_response r; reflexivity.
Qed.


(** ** The polling loop, further *)

Lemma count_app (f : effect -> bool) (xs ys : list effect) :
  count f (xs ++ ys) = count f xs + count f ys.
Proof. unfold count. now rewrite filter_app, length_app. Qed.

Lemma count_complete_le_terminal (fx : list effect) :
  count is_complete fx <= count is_terminal fx.
Proof.
  unfold count. induction fx as [|x fx IH]; [reflexivity|].
  destruct x; cbn; lia.
Qed.

Lemma invariant_initial (tid : string) : poll_invariant tid (pollTaskStatus tid).
Proof.
  split; [reflexivity|]. split.
  - cbn. constructor; [reflexivity | constructor].
  - cbn. split; reflexivity.
Qed.

Lemma invariant_resumed (tid : string) (p : poller) (answer : fetch_result)
    (f s : reaction) :
  poll_invariant tid p -> pending p = InFlight ->
  poll_invariant tid (checkStatus_resumed p answer f s).
Proof.
  intros [Hid [Hall Hshape]] Hp. rewrite Hp in Hshape.
  destruct Hshape as [Hterm Hfetch].
  pose proof (count_complete_le_terminal (trace p)) as Hcomp.
  destruct (turn_summary answer f s (isCancelled p))
    as [_ [Hf [Hexp [Hcase _]]]].
  unfold poll_invariant. rewrite resumed_trace.
  split; [exact Hid|].
  split; [apply Forall_app; split; [exact Hall | apply Hexp]|].
  cbn [checkStatus_resumed pending]. rewrite !count_app.
  destruct Hcase as [[-> [Hpr [Hte _]]] | [-> [Hpr [Hte [Hco _]]]]].
  - repeat split; lia.
  - repeat split; lia.
Qed.

Lemma invariant_step (tid : string) (p q : poller) (a : action) :
  poll_invariant tid p -> step p a = Some q -> poll_invariant tid q.
Proof.
  intros Inv. unfold step.
  destruct a as [|answer f s|].
  - intros H; inversion H; subst. exact Inv.
  - destruct (pending p) eqn:Hp; try discriminate.
    intros H; inversion H; subst. now apply invariant_resumed.
  - destruct (pending p) eqn:Hp; try discriminate.
    intros H; inversion H; subst. clear H.
    destruct Inv as [Hid [Hall Hshape]]. rewrite Hp in Hshape.
    destruct Hshape as [_ [Hterm Hfetch]].
    pose proof (count_complete_le_terminal (trace p)) as Hcomp.
    unfold poll_invariant, checkStatus.
    destruct (isCancelled p); cbn [taskId trace pending].
    + split; [exact Hid|]. split; [exact Hall|]. lia.
    + split; [exact Hid|]. split.
      * apply Forall_app. split; [exact Hall|].
        constructor; [|constructor]. cbn. now rewrite Hid.
      * rewrite !count_app, Hterm, Hfetch. cbn. lia.
Qed.

Lemma invariant_run (tid : string) (acts : list action) :
  forall p q, poll_invariant tid p -> run p acts = Some q -> poll_invariant tid q.
Proof.
  induction acts as [|a acts IH]; intros p q Inv; cbn [run].
  - intros H; inversion H; subst; exact Inv.
  - destruct (step p a) as [p1|] eqn:E; [|discriminate].
    apply IH. exact (invariant_step tid p p1 a Inv E).
Qed.

Lemma reachable_invariant (tid : string) (acts : list action) (p : poller) :
  run (pollTaskStatus tid) acts = Some p -> poll_invariant tid p.
Proof. apply invariant_run, invariant_initial. Qed.

(** While the callbacks called inside the [try] return, a second terminal
    callback is never reached. *)
Lemma calm_run (tid : string) (acts : list action) :
  forall p q,
    Forall try_callback_returns acts ->
    poll_invariant tid p ->
    count is_terminal (trace p) <= 1 ->
    run p acts = Some q ->
    count is_terminal (trace q) <= 1.
Proof.
  induction acts as [|a acts IH]; intros p q Hcalm Inv Hle; cbn [run].
  - intros H; inversion H; subst; exact Hle.
  - inversion Hcalm as [|? ? Ha Hrest]; subst.
    destruct (step p a) as [p1|] eqn:E; [|discriminate].
    apply (IH p1 q Hrest (invariant_step tid p p1 a Inv E)).
    revert E. unfold step.
    destruct a as [|answer f s|].
    + intros E; inversion E; subst. exact Hle.
    + destruct (pending p) eqn:Hp; try discriminate.
      intros E; inversion E; subst. clear E.
      destruct Inv as [_ [_ Hshape]]. rewrite Hp in Hshape.
      destruct Hshape as [Hterm _].
      rewrite resumed_trace, count_app, Hterm.
      destruct (turn_summary answer f s (isCancelled p))
        as [_ [_ [_ [[[_ [_ [Hte _]]] | [_ [_ [_ [_ Hte]]]]] _]]]].
      * lia.
      * specialize (Hte Ha). lia.
    + destruct (pending p) eqn:Hp; try discriminate.
      intros E; inversion E; subst. unfold checkStatus.
      destruct (isCancelled p); cbn [trace]; [exact Hle|].
      rewrite count_app. cbn. lia.
Qed.

(** X10: in every run of a polling sequence the completion callback is
    called at most once and the terminal callbacks (completion or error) at
    most twice, the second time from the [catch] when the first call threw:
    at most once in a run in which the callbacks called inside the [try]
    return.  Once a terminal callback has been called the sequence is over:
    nothing is pending and no later turn of the event loop adds an
    effect. *)
Theorem terminal_callback_once_and_last
    (tid : string) (acts : list action) (p : poller) :
  run (pollTaskStatus tid) acts = Some p ->
  count is_complete (trace p) <= 1 /\
  count is_terminal (trace p) <= 2 /\
  (Forall try_callback_returns acts -> count is_terminal (trace p) <= 1) /\
  (1 <= count is_terminal (trace p) ->
   pending p = Idle /\
   forall more p', run p more = Some p' -> trace p' = trace p).
Proof.
  intros H. pose proof (reachable_invariant tid acts p H) as [_ [_ Hshape]].
  pose proof (count_complete_le_terminal (trace p)) as Hcomp.
  split; [|split; [|split]].
  - destruct (pending p); lia.
  - destruct (pending p); lia.
  - intros Hcalm.
    apply (calm_run tid acts (pollTaskStatus tid) p Hcalm (invariant_initial tid));
      [cbn; lia | exact H].
  - intros Hone. destruct (pending p) eqn:Hp.
    + split; [reflexivity|].
      intros more p' Hr. now apply idle_is_final in Hr.
    + lia.
    + lia.
Qed.

Lemma terminal_callback_once_and_last_witness :
  let p := checkStatus_resumed (pollTaskStatus "task-1")
             (Sample.responds 200 "OK" (Decodes (Sample.record "completed")))
             {| cancels := false; throws := Some (new_Error "render failed") |}
             returns in
  count is_complete (trace p) <= 1 /\
  count is_terminal (trace p) <= 2 /\
  (Forall try_callback_returns
     [SettleWith (Sample.responds 200 "OK" (Decodes (Sample.record "completed")))
                 {| cancels := false; throws := Some (new_Error "render failed") |}
                 returns] ->
   count is_terminal (trace p) <= 1) /\
  (1 <= count is_terminal (trace p) ->
   pending p = Idle /\
   forall more p', run p more = Some p' -> trace p' = trace p).
Proof.
  apply (terminal_callback_once_and_last "task-1"
           [SettleWith (Sample.responds 200 "OK" (Decodes (Sample.record "completed")))
                       {| cancels := false; throws := Some (new_Error "render failed") |}
                       returns]).
  reflexivity.
Defined.

(** X11: a polling sequence never has two requests outstanding: at every
    point of every run, the requests issued so far are as many as the
    progress callbacks fired so far, or one more; and every one of them is
    the status request of the task the sequence was started for. *)
Theorem requests_follow_progress
    (tid : string) (acts : list action) (p : poller) :
  run (pollTaskStatus tid) acts = Some p ->
  count is_progress (trace p) <= count is_fetch (trace p) /\
  count is_fetch (trace p) <= S (count is_progress (trace p)) /\
  forall req, In (Fetch req) (trace p) -> req = checkTaskStatus_request tid.
Proof.
  intros H. apply reachable_invariant in H. destruct H as [_ [Hall Hshape]].
  split; [|split].
  - destruct (pending p); lia.
  - destruct (pending p); lia.
  - intros req Hin. rewrite Forall_forall in Hall. exact (Hall _ Hin).
Qed.

Lemma requests_follow_progress_witness :
  let p := checkStatus
             (checkStatus_settled (pollTaskStatus "task-1")
                (Sample.responds 200 "OK" (Decodes (Sample.record "queued")))) in
  count is_progress (trace p) <= count is_fetch (trace p) /\
  count is_fetch (trace p) <= S (count is_progress (trace p)) /\
  forall req, In (Fetch req) (trace p) -> req = checkTaskStatus_request "task-1".
Proof.
  apply (requests_follow_progress "task-1"
           [Settle (Sample.responds 200 "OK" (Decodes (Sample.record "queued")));
            TimerFires]).
  reflexivity.
Defined.

(** X12: in every run of a polling sequence, no toast is shown, every timer
    is set to 1000 ms, and the error callback only ever receives an [Error]
    instance, also when what was thrown is not one. *)
Theorem polling_is_quiet_and_regular
    (tid : string) (acts : list action) (p : poller) :
  run (pollTaskStatus tid) acts = Some p ->
  (forall t, ~ In (Toast t) (trace p)) /\
  (forall ms, In (SetTimeout ms) (trace p) -> ms = 1000%N) /\
  (forall e, In (OnError e) (trace p) -> instanceof_Error e = true).
Proof.
  intros H. apply reachable_invariant in H. destruct H as [_ [Hall _]].
  rewrite Forall_forall in Hall.
  split; [|split].
  - intros t Hin. exact (Hall _ Hin).
  - intros ms Hin. exact (Hall _ Hin).
  - intros e Hin. exact (Hall _ Hin).
Qed.

Lemma polling_is_quiet_and_regular_witness :
  let p := checkStatus_settled (pollTaskStatus "task-1")
             (Rejects (OtherValue (Some (JStr "aborted")))) in
  (forall t, ~ In (Toast t) (trace p)) /\
  (forall ms, In (SetTimeout ms) (trace p) -> ms = 1000%N) /\
  (forall e, In (OnError e) (trace p) -> instanceof_Error e = true).
Proof.
  apply (polling_is_quiet_and_regular "task-1"
           [Settle (Rejects (OtherValue (Some (JStr "aborted"))))]).
  reflexivity.
Defined.



(** X14: a record whose [status] is anything but the texts 'completed' and
    'error' (another text, another kind of value, or no such field at all)
    keeps the sequence polling, provided the progress callback returns: the
    callback receives the record and the next query is scheduled 1000 ms
    later; the flag is set if the callback invoked the returned function,
    and unchanged otherwise. *)
Theorem other_status_keeps_polling
    (p : poller) (answer : fetch_result) (j : json) (in_try in_catch : reaction) :
  pending p = InFlight ->
  answers_with answer j ->
  non_terminal j ->
  throws in_try = None ->
  exists p',
    step p (SettleWith answer in_try in_catch) = Some p' /\
    trace p' = trace p ++ [OnProgress j; SetTimeout 1000] /\
    pending p' = Scheduled 1000 /\
    isCancelled p' = (if cancels in_try then true else isCancelled p).
Proof.
  intros Hp Ha Hn Hret.
  exists (checkStatus_resumed p answer in_try in_catch).
  split; [now apply settle_in_flight|].
  rewrite (resumed_progress p answer j in_try in_catch Ha Hn).
  destruct in_try as [c t]. cbn in Hret. subst t.
  repeat split.
Qed.

Lemma other_status_keeps_polling_witness :
  exists p',
    step (pollTaskStatus "task-1")
         (SettleWith (Sample.responds 200 "OK" (Decodes Sample.bare))
                     {| cancels := true; throws := None |} returns) = Some p' /\
    trace p' = trace (pollTaskStatus "task-1")
                 ++ [OnProgress Sample.bare; SetTimeout 1000] /\
    pending p' = Scheduled 1000 /\
    isCancelled p' = true.
Proof.
  apply (other_status_keeps_polling (pollTaskStatus "task-1") _ Sample.bare
           {| cancels := true; throws := None |} returns).
  - reflexivity.
  - eexists; repeat split; reflexivity.
  - exists None. repeat split; reflexivity.
  - reflexivity.
Defined.

(** Outside X14: a progress callback that throws sets no timer; the error
    callback receives what it threw and the sequence is over. *)
Example throwing_onProgress_stops_polling :
  run (pollTaskStatus "task-1")
      [SettleWith (Sample.responds 200 "OK" (Decodes (Sample.record "queued")))
                  {| cancels := false; throws := Some (new_Error "render failed") |}
                  returns]
  = Some {| taskId := "task-1"; isCancelled := false; pending := Idle;
            trace := [Fetch (checkTaskStatus_request "task-1");
                      OnProgress (Sample.record "queued");
                      OnError (new_Error "render failed")] |}.
Proof. reflexivity. Qed.



Lemma polls_progress (turns : list turn) (js : list json) (rest : list action) :
  Forall2 (fun t j => answers_with (answer_of t) j) turns js ->
  Forall non_terminal js ->
  Forall (fun t => lets_polling_go_on (in_try_of t)) turns ->
  forall p, pending p = InFlight -> isCancelled p = false ->
  run p (polls turns ++ rest) =
    run {| taskId := taskId p; isCancelled := false; pending := InFlight;
           trace := trace p ++
                    flat_map (fun j => [OnProgress j; SetTimeout 1000;
                                        Fetch (checkTaskStatus_request (taskId p))]) js |}
        rest.
Proof.
  induction 1 as [|[[a f] s] j turns js Ha _ IH]; intros Hnt Hlets p Hp Hc.
  - destruct p as [t c w tr]. cbn in *. subst. now rewrite app_nil_r.
  - inversion Hnt as [|? ? Hn Hrest]; subst.
    inversion Hlets as [|? ? Hf Hlets']; subst.
    cbn [polls app].
    rewrite (polling_round p a j f s _ Hp Hc Ha Hn Hf).
    rewrite (IH Hrest Hlets'); [|reflexivity|reflexivity].
    cbn [taskId trace flat_map]. rewrite <- !app_assoc. reflexivity.
Qed.

Lemma progress_rounds (req : request) (js : list json) :
  filter is_progress (flat_map (fun j => [OnProgress j; SetTimeout 1000; Fetch req]) js)
    = map OnProgress js /\
  filter is_complete (flat_map (fun j => [OnProgress j; SetTimeout 1000; Fetch req]) js)
    = [] /\
  count is_fetch (flat_map (fun j => [OnProgress j; SetTimeout 1000; Fetch req]) js)
    = length js.
Proof.
  induction js as [|j js [IH1 [IH2 IH3]]]; [repeat split; reflexivity|].
  split; [|split].
  - cbn. now rewrite IH1.
  - cbn. exact IH2.
  - unfold count in *. cbn. now rewrite IH3.
Qed.

(** X16: when the queries of a polling sequence are answered with any
    number of records that keep it polling, each progress callback
    returning without cancelling, and then with a record whose status is
    'completed', the progress callback receives each of the former, in
    order, and the completion callback receives the latter, once, whatever
    the completion callback then does; one request was issued per record,
    and nothing is pending afterwards. *)
Theorem polls_until_completed
    (tid : string) (turns : list turn) (js : list json)
    (last : fetch_result) (c : json) (in_try in_catch : reaction) :
  Forall2 (fun t j => answers_with (answer_of t) j) turns js ->
  Forall non_terminal js ->
  Forall (fun t => lets_polling_go_on (in_try_of t)) turns ->
  answers_with last c ->
  get_prop c "status" = ret (Some (JStr "completed")) ->
  exists p,
    run (pollTaskStatus tid) (polls turns ++ [SettleWith last in_try in_catch])
      = Some p /\
    filter is_progress (trace p) = map OnProgress js /\
    filter is_complete (trace p) = [OnComplete c] /\
    count is_fetch (trace p) = S (length js) /\
    pending p = Idle.
Proof.
  intros Hans Hnt Hlets Hlast Hc.
  rewrite (polls_progress turns js _ Hans Hnt Hlets (pollTaskStatus tid)
             eq_refl eq_refl).
  cbn [run]. rewrite settle_in_flight by reflexivity.
  eexists. split; [reflexivity|].
  match goal with |- context [checkStatus_resumed ?p0 _ _ _] =>
    destruct (completed_turn p0 last c in_try in_catch Hlast Hc)
      as [tail [Ht [Tp [Tc [Tf [Hi _]]]]]]
  end.
  rewrite Ht. cbn [trace taskId pollTaskStatus checkStatus isCancelled].
  destruct (progress_rounds (checkTaskStatus_request tid) js) as [P1 [P2 P3]].
  split; [|split; [|split]].
  - rewrite !filter_app, P1. cbn [filter is_progress app]. rewrite Tp.
    apply app_nil_r.
  - rewrite !filter_app, P2. cbn [filter is_complete app]. now rewrite Tc.
  - rewrite !count_app, P3. unfold count, fetches in *.
    cbn [filter is_fetch length]. rewrite Tf. cbn. lia.
  - exact Hi.
Qed.

Lemma polls_until_completed_witness :
  exists p,
    run (pollTaskStatus "task-1")
        (polls [(Sample.responds 200 "OK" (Decodes (Sample.record "queued")),
                 returns, returns);
                (Sample.responds 200 "OK" (Decodes Sample.bare), returns, returns);
                (Sample.responds 200 "OK" (Decodes (Sample.record "running")),
                 returns, returns)]
         ++ [SettleWith (Sample.responds 200 "OK" (Decodes (Sample.record "completed")))
                        {| cancels := false; throws := Some (new_Error "render failed") |}
                        returns])
      = Some p /\
    filter is_progress (trace p) =
      map OnProgress [Sample.record "queued"; Sample.bare; Sample.record "running"] /\
    filter is_complete (trace p) = [OnComplete (Sample.record "completed")] /\
    count is_fetch (trace p) = 4 /\
    pending p = Idle.
Proof.
  apply (polls_until_completed "task-1").
  - repeat constructor; eexists; repeat split; reflexivity.
  - repeat constructor;
      (exists (Some (JStr "queued")) + exists None + exists (Some (JStr "running")));
      repeat split; reflexivity.
  - repeat constructor.
  - eexists; repeat split; reflexivity.
  - reflexivity.
Defined.

(** X17: once the returned function has been invoked, in whatever state,
    the sequence issues no further request, and its callbacks fire at most
    once more (for the request that was in flight, if it succeeds). *)
Theorem cancel_stops_requests
    (p : poller) (acts : list action) (q : poller) :
  run p (Cancel :: acts) = Some q ->
  fetches (trace q) = fetches (trace p) /\
  length (callbacks (trace q)) <= length (callbacks (trace p)) + 1.
Proof.
  cbn [run step]. intros H. split.
  - exact (cancelled_run_no_fetch acts (cancel p) q eq_refl H).
  - exact (cancelled_run_at_most_one_callback acts (cancel p) q eq_refl H).
Qed.

Lemma cancel_stops_requests_witness :
  let p := pollTaskStatus "task-1" in
  let q := checkStatus
             (checkStatus_settled (cancel p)
                (Sample.responds 200 "OK" (Decodes (Sample.record "queued")))) in
  fetches (trace q) = fetches (trace p) /\
  length (callbacks (trace q)) <= length (callbacks (trace p)) + 1.
Proof.
  apply (cancel_stops_requests (pollTaskStatus "task-1")
           [Settle (Sample.responds 200 "OK" (Decodes (Sample.record "queued")));
            TimerFires]).
  reflexivity.
Defined.

(** ** What a 2xx answer returns *)

(** X18: none of the three functions inspects the body of a 2xx response:
    whatever value it decodes to (an object without the expected fields,
    a text, [null]) is returned as it is, with no toast and nothing
    logged. *)
Theorem decoded_body_returned_unchecked
    (fetch : request -> fetch_result) (file : File) (frames : N) (taskId : string)
    (r : response) (j : json) :
  ok r = true ->
  payload r = Decodes j ->
  (fetch (uploadVideo_request file frames) = Resolves r ->
   uploadVideo fetch file frames =
     ([Fetch (uploadVideo_request file frames)], Returned j)) /\
  (fetch (uploadAudio_request file) = Resolves r ->
   uploadAudio fetch file =
     ([Fetch (uploadAudio_request file)], Returned j)) /\
  (fetch (checkTaskStatus_request taskId) = Resolves r ->
   checkTaskStatus fetch taskId =
     ([Fetch (checkTaskStatus_request taskId)], Returned j)).
Proof.
  intros Hok Hb. split; [|split]; intros Hf.
  - unfold uploadVideo, do_fetch. rewrite Hf. cbn [await_fetch emit ret bind app].
    rewrite Hok. cbn [negb ret bind]. unfold json_of. rewrite Hb. reflexivity.
  - unfold uploadAudio, do_fetch. rewrite Hf. cbn [await_fetch emit ret bind app].
    rewrite Hok. cbn [negb ret bind]. unfold json_of. rewrite Hb. reflexivity.
  - unfold checkTaskStatus, do_fetch. rewrite Hf. cbn [await_fetch emit ret bind app].
    rewrite Hok. cbn [negb ret bind]. unfold json_of. rewrite Hb. reflexivity.
Qed.

Lemma decoded_body_returned_unchecked_witness :
  let fetch := fun _ : request => Sample.responds 200 "OK" (Decodes JNull) in
  uploadVideo fetch Sample.clip 20 =
    ([Fetch (uploadVideo_request Sample.clip 20)], Returned JNull) /\
  uploadAudio fetch Sample.clip =
    ([Fetch (uploadAudio_request Sample.clip)], Returned JNull) /\
  checkTaskStatus fetch "task-1" =
    ([Fetch (checkTaskStatus_request "task-1")], Returned JNull).
Proof.
  destruct (decoded_body_returned_unchecked
              (fun _ => Sample.responds 200 "OK" (Decodes JNull))
              Sample.clip 20 "task-1"
              {| status := 200; statusText := "OK"; payload := Decodes JNull |}
              JNull eq_refl eq_refl) as [Hv [Ha Hc]].
  split; [exact (Hv eq_refl) | split; [exact (Ha eq_refl) | exact (Hc eq_refl)]].
Defined.
